(** * bloog: front-matter parsing, corpus loading and sidebar construction

    A shallow embedding of [main.go].  Go strings are byte sequences and are
    modelled as [list ascii]; Go's [int] results are [Z]; a Go function
    returning [(T, error)] returns a pair [T * option error].  The Go
    standard-library functions the program calls are modelled from their
    documented behaviour in the modules [strings], [strconv] and [regexp];
    the markdown renderer, Unicode lower-casing, [sort.Slice] and the
    iteration order of a Go map are parameters of the model. *)

From Stdlib Require Import ZArith List Ascii String Lia.
From Stdlib Require Import Sorting.Sorted.
From stdpp Require Import base option list gmap strings sorting.
Import ListNotations.

Open Scope string_scope.
Open Scope Z_scope.
Open Scope list_scope.

(** Go's [string]: a sequence of bytes. *)
Abbreviation gostring := (list ascii).

(** String literals are read as byte sequences. *)
Coercion list_ascii_of_string : string >-> list.

(** ** Bytes and character classes *)

Definition LF : ascii := "010"%char.
Definition CR : ascii := "013"%char.
Definition TAB : ascii := "009"%char.
Definition FF : ascii := "012"%char.
Definition SP : ascii := " "%char.
Definition HYPHEN : ascii := "-"%char.
Definition DQUOTE : ascii := "034"%char.

Definition byte_eqb (a b : ascii) : bool := Ascii.eqb a b.

Definition in_range (lo hi c : ascii) : bool :=
  ((nat_of_ascii lo <=? nat_of_ascii c)%nat && (nat_of_ascii c <=? nat_of_ascii hi)%nat)%bool.

Definition is_digit (c : ascii) : bool := in_range "0" "9" c.
Definition is_lower (c : ascii) : bool := in_range "a" "z" c.
Definition is_upper (c : ascii) : bool := in_range "A" "Z" c.

(** [\w] of Go's regexp syntax: [0-9A-Za-z_]. *)
Definition is_word (c : ascii) : bool :=
  (is_digit c || is_upper c || is_lower c || byte_eqb c "_")%bool.

(** [\s] of Go's regexp syntax: [\t\n\f\r ]. *)
Definition is_space (c : ascii) : bool :=
  (byte_eqb c TAB || byte_eqb c LF || byte_eqb c FF || byte_eqb c CR || byte_eqb c SP)%bool.

(** [.] without the [s] flag: any character but the line feed. *)
Definition is_dot (c : ascii) : bool := negb (byte_eqb c LF).

(** The negated class [[^a-z0-9\-]] keeps out exactly these bytes. *)
Definition is_id_char (c : ascii) : bool :=
  (is_lower c || is_digit c || byte_eqb c HYPHEN)%bool.

Definition is_ascii (c : ascii) : bool := (nat_of_ascii c <? 128)%nat.

(** Lower-casing of one ASCII byte: [A-Z] moves down by 32. *)
Definition lower_byte (c : ascii) : ascii :=
  if is_upper c then ascii_of_nat (nat_of_ascii c + 32) else c.

(** ** Package [strings] *)

Module strings.

Fixpoint HasPrefix (s prefix : gostring) {struct prefix} : bool :=
  match prefix, s with
  | [], _ => true
  | p :: prefix', c :: s' => (byte_eqb c p && HasPrefix s' prefix')%bool
  | _ :: _, [] => false
  end.

(** [len(s) >= len(suffix) && s[len(s)-len(suffix):] == suffix] *)
Definition HasSuffix (s suffix : gostring) : bool :=
  ((length suffix <=? length s)%nat
   && bool_decide (drop (length s - length suffix) s = suffix))%bool.

(** Index of the first instance of [substr] in [s]; Go's [-1] is [None]. *)
Fixpoint Index (s substr : gostring) : option nat :=
  if HasPrefix s substr then Some 0%nat
  else match s with
       | [] => None
       | _ :: s' => S <$> Index s' substr
       end.

(** [SplitN(s, sep, n)] for a non-empty [sep] and [n >= 0]: at most [n]
    pieces, the last one the unsplit remainder. *)
Fixpoint SplitN (s sep : gostring) (n : nat) : list gostring :=
  match n with
  | O => []
  | S O => [s]
  | S n' =>
      match Index s sep with
      | None => [s]
      | Some m => take m s :: SplitN (drop (m + length sep) s) sep n'
      end
  end.

(** [ReplaceAll(s, old, new)] for a non-empty [old]: the occurrences of
    [old] are replaced from left to right, without overlap.  [skip] counts
    the bytes of an occurrence still to be passed over. *)
Fixpoint replace_from (skip : nat) (s old new : gostring) : gostring :=
  match s with
  | [] => []
  | c :: s' =>
      match skip with
      | S k => replace_from k s' old new
      | O => if HasPrefix s old
             then new ++ replace_from (length old - 1) s' old new
             else c :: replace_from 0 s' old new
      end
  end.

Definition ReplaceAll (s old new : gostring) : gostring :=
  replace_from 0 s old new.

End strings.

(** ** Package [strconv] *)

Module strconv.

Definition digit_value (c : ascii) : Z := Z.of_nat (nat_of_ascii c) - 48.

(** The value of a run of decimal digits, [None] when a byte is no digit. *)
Fixpoint digits (acc : Z) (s : gostring) : option Z :=
  match s with
  | [] => Some acc
  | c :: s' => if is_digit c then digits (acc * 10 + digit_value c) s' else None
  end.

Definition min_int : Z := - 2 ^ 63.
Definition max_int : Z := 2 ^ 63 - 1.

(** [Atoi]: an optional sign, then one or more decimal digits, the value in
    the range of a 64-bit [int]; anything else is an error ([None]). *)
Definition Atoi (s : gostring) : option Z :=
  let '(neg, ds) :=
    match s with
    | c :: s' =>
        if byte_eqb c "-" then (true, s')
        else if byte_eqb c "+" then (false, s')
        else (false, s)
    | [] => (false, s)
    end in
  match ds with
  | [] => None
  | _ =>
      n ← digits 0 ds;
      let v := if neg then - n else n in
      if ((min_int <=? v) && (v <=? max_int))%bool then Some v else None
  end.

End strconv.

(** ** Package [regexp]

    The two patterns of the program are sequences of greedy repetitions of
    character classes, anchored at a line start by [(?m)^].  A greedy
    repetition followed by the rest of the pattern tries the longest run
    first and gives bytes back one at a time (leftmost-first matching). *)

Module regexp.

(** Length of the longest prefix of [s] inside the class [p]. *)
Fixpoint run (p : ascii -> bool) (s : gostring) : nat :=
  match s with
  | c :: s' => if p c then S (run p s') else O
  | [] => O
  end.

(** Try [k] at [n], [n-1], ..., down to [lo]; the first success wins. *)
Fixpoint longest_first {A} (lo n : nat) (k : nat -> option A) : option A :=
  if (n <? lo)%nat then None
  else match k n with
       | Some a => Some a
       | None => match n with
                 | O => None
                 | S n' => longest_first lo n' k
                 end
       end.

(** [p{lo,}] (greedy) followed by [k]: [k] receives the bytes the
    repetition took and the rest of the input. *)
Definition greedy {A} (p : ascii -> bool) (lo : nat) (s : gostring)
    (k : gostring -> gostring -> option A) : option A :=
  longest_first lo (run p s) (fun n => k (take n s) (drop n s)).

(** A match of an anchored pattern at the start of [s]: the submatches
    (whole match first) and the number of bytes matched. *)
Definition matcher := gostring -> option (list gostring * nat).

(** All successive matches of a pattern anchored by [(?m)^]: a match may
    start at the beginning of the text or right after a line feed, and the
    search resumes where the previous match ended.  [skip] counts the bytes
    of the last match still to be passed over, [bol] tells whether the
    current position is the start of a line. *)
Fixpoint find_all (m : matcher) (skip : nat) (bol : bool) (s : gostring)
    : list (list gostring) :=
  match s with
  | [] => []
  | c :: s' =>
      let bol' := byte_eqb c LF in
      match skip with
      | S k => find_all m k bol' s'
      | O =>
          if bol then
            match m s with
            | Some (sub, n) => sub :: find_all m (n - 1) bol' s'
            | None => find_all m 0 bol' s'
            end
          else find_all m 0 bol' s'
      end
  end.

Definition FindAllSubmatch (m : matcher) (s : gostring) : list (list gostring) :=
  find_all m 0 true s.

(** [(?m)^(\w+):\s*(.+)] at a line start. *)
Definition meta_pattern : matcher := fun s =>
  greedy is_word 1 s (fun key r1 =>
    match r1 with
    | c :: r2 =>
        if byte_eqb c ":" then
          greedy is_space 0 r2 (fun ws r3 =>
            greedy is_dot 1 r3 (fun value _ =>
              Some ([key ++ ":" ++ ws ++ value; key; value],
                    (length key + 1 + length ws + length value)%nat)))
        else None
    | [] => None
    end).

(** The headings pattern at a line start: [(?m)^##\s+] followed by a
    capture group of any number of non-newline characters. *)
Definition header_pattern : matcher := fun s =>
  match s with
  | c1 :: c2 :: r1 =>
      if (byte_eqb c1 "#" && byte_eqb c2 "#")%bool then
        greedy is_space 1 r1 (fun ws r2 =>
          greedy is_dot 0 r2 (fun text _ =>
            Some (["##" ++ ws ++ text; text],
                  (2 + length ws + length text)%nat)))
      else None
  | _ => None
  end.

(** [ReplaceAllString] of a one-character negated class by the empty
    string: the bytes outside [keep] are dropped. *)
Definition strip_outside (keep : ascii -> bool) (s : gostring) : gostring :=
  List.filter keep s.

End regexp.

(** ** Errors and the file system *)

Inductive error : Type :=
| errorString (msg : gostring)      (* the value of [errors.New(msg)] *)
| PathError (op path : gostring).   (* what [os.ReadDir] and [os.ReadFile] report *)

Module DirEntry.
Record t : Type := mk { Name : gostring; IsDir : bool }.
End DirEntry.

(** The two file-system calls of the program, as results of the state of the
    disk at start-up. *)
Record FileSystem : Type := {
  ReadDir : gostring -> list DirEntry.t * option error;
  ReadFile : gostring -> gostring * option error
}.

(** ** Data model *)

Module BlogPost.
Record t : Type := mk {
  Title : gostring;
  Slug : gostring;
  Parent : gostring;
  Content : gostring;
  Description : gostring;
  Order : Z;
  Headers : list gostring;
  MetaDescription : gostring;
  MetaPropertyTitle : gostring;
  MetaPropertyDescription : gostring;
  MetaOgURL : gostring
}.

(** [BlogPost{}] *)
Definition zero : t := mk [] [] [] [] [] 0 [] [] [] [] [].
End BlogPost.

Module Category.
Record t : Type := mk {
  Name : gostring;
  Pages : list BlogPost.t;
  Order : Z
}.
End Category.

Module SideBar.
Record t : Type := mk { Categories : list Category.t }.

Definition zero : t := mk [].
End SideBar.

(** ** The program *)

(** Reading a key of a [map[string]string]: the empty string when absent. *)
Definition map_get (m : gmap gostring gostring) (k : gostring) : gostring :=
  default [] (m !! k).

(** The loop of [parseMetaData] that fills [metaDataMap]: every match with
    three submatches assigns its second group to the key in its first. *)
Definition fillMetaDataMap (matches : list (list gostring)) : gmap gostring gostring :=
  fold_left
    (fun m mt =>
       match mt with
       | [_; key; value] => <[key := value]> m
       | _ => m
       end)
    matches ∅.

Definition metaDataMap (metadata : gostring) : gmap gostring gostring :=
  fillMetaDataMap (regexp.FindAllSubmatch regexp.meta_pattern metadata).

(** The nine results of [parseMetaData], in the order of the source. *)
Definition parseMetaData (metadata : gostring)
  : gostring * gostring * gostring * gostring * Z
    * gostring * gostring * gostring * gostring :=
  let m := metaDataMap metadata in
  let title := map_get m "Title" in
  let slug := map_get m "Slug" in
  let parent := map_get m "Parent" in
  let description := map_get m "Description" in
  let orderStr := map_get m "Order" in
  let metaDescriptionStr := map_get m "MetaDescription" in
  let metaPropertyTitleStr := map_get m "MetaPropertyTitle" in
  let metaPropertyDescriptionStr := map_get m "MetaPropertyDescription" in
  let metaOgURLStr := map_get m "MetaOgURL" in
  let order :=
    match strconv.Atoi orderStr with
    | Some n => n
    | None => 9999
    end in
  (title, slug, parent, description, order, metaDescriptionStr,
   metaPropertyTitleStr, metaPropertyDescriptionStr, metaOgURLStr).

Definition extractHeaders (content : gostring) : list gostring :=
  fold_left
    (fun headers mt => headers ++ [nth 1 mt []])
    (regexp.FindAllSubmatch regexp.header_pattern content) [].

(** The two blocks [parseMarkdownFile] works on once the split succeeded:
    [sections[0]] and [sections[1]], each without its carriage returns. *)
Definition frontMatterBlocks (content : gostring) : option (gostring * gostring) :=
  let sections := strings.SplitN content "---" 2 in
  if (length sections <? 2)%nat then None
  else Some (strings.ReplaceAll (nth 0 sections []) [CR] [],
             strings.ReplaceAll (nth 1 sections []) [CR] []).

Section Program.

(** The markdown renderer of [gomarkdown], a black box here. *)
Variable mdToHTML : gostring -> gostring.

(** [strings.ToLower], whose action on non-ASCII text follows the Unicode
    tables. *)
Variable strings_ToLower : gostring -> gostring.

(** [sort.Slice] on a slice of categories, the [less] closure read as a
    comparison of the elements at the two indices. *)
Variable sort_Slice :
  (Category.t -> Category.t -> bool) -> list Category.t -> list Category.t.

(** The order in which a [range] statement visits the entries of a map. *)
Variable map_range :
  gmap gostring Category.t -> list (gostring * Category.t).

Definition parseMarkdownFile (content : gostring) : BlogPost.t * option error :=
  match frontMatterBlocks content with
  | None => (BlogPost.zero, Some (errorString "invalid markdown format"))
  | Some (metadata, mdContent) =>
      let '(title, slug, parent, description, order, metaDescriptionStr,
            metaPropertyTitleStr, metaPropertyDescriptionStr, metaOgURLStr) :=
        parseMetaData metadata in
      let htmlContent := mdToHTML mdContent in
      let headers := extractHeaders mdContent in
      ({| BlogPost.Title := title;
          BlogPost.Slug := slug;
          BlogPost.Parent := parent;
          BlogPost.Description := description;
          BlogPost.Content := htmlContent;
          BlogPost.Headers := headers;
          BlogPost.Order := order;
          BlogPost.MetaDescription := metaDescriptionStr;
          BlogPost.MetaPropertyTitle := metaPropertyTitleStr;
          BlogPost.MetaPropertyDescription := metaPropertyDescriptionStr;
          BlogPost.MetaOgURL := metaOgURLStr |}, None)
  end.

(** The loop of [loadMarkdownPosts] over the directory entries, [posts]
    being the slice built so far. *)
Fixpoint loadFiles (fs : FileSystem) (dir : gostring)
    (files : list DirEntry.t) (posts : list BlogPost.t)
    : list BlogPost.t * option error :=
  match files with
  | [] => (posts, None)
  | file :: files' =>
      if strings.HasSuffix (DirEntry.Name file) ".md" then
        let path := dir ++ "/" ++ DirEntry.Name file in
        match ReadFile fs path with
        | (_, Some err) => ([], Some err)
        | (content, None) =>
            match parseMarkdownFile content with
            | (_, Some err) => ([], Some err)
            | (post, None) => loadFiles fs dir files' (posts ++ [post])
            end
        end
      else loadFiles fs dir files' posts
  end.

Definition loadMarkdownPosts (fs : FileSystem) (dir : gostring)
    : list BlogPost.t * option error :=
  match ReadDir fs dir with
  | (_, Some err) => ([], Some err)
  | (files, None) => loadFiles fs dir files []
  end.

(** One turn of the grouping loop of [loadSidebarData]. *)
Definition addPost (categoriesMap : gmap gostring Category.t) (post : BlogPost.t)
    : gmap gostring Category.t :=
  if bool_decide (BlogPost.Parent post ≠ []) then
    match categoriesMap !! BlogPost.Parent post with
    | None =>
        <[BlogPost.Parent post :=
            {| Category.Name := BlogPost.Parent post;
               Category.Pages := [post];
               Category.Order := BlogPost.Order post |}]> categoriesMap
    | Some cat =>
        <[BlogPost.Parent post :=
            {| Category.Name := Category.Name cat;
               Category.Pages := Category.Pages cat ++ [post];
               Category.Order := Category.Order cat |}]> categoriesMap
    end
  else categoriesMap.

Definition groupPosts (posts : list BlogPost.t) : gmap gostring Category.t :=
  fold_left addPost posts ∅.

(** The closure handed to [sort.Slice]. *)
Definition lessOrder (a b : Category.t) : bool :=
  Category.Order a <? Category.Order b.

(** What [loadSidebarData] does with the posts once they are loaded: group,
    copy the map into a slice, sort the slice. *)
Definition sidebarOf (posts : list BlogPost.t) : SideBar.t :=
  let categoriesMap := groupPosts posts in
  let categories :=
    fold_left (fun cs kv => cs ++ [snd kv]) (map_range categoriesMap) [] in
  {| SideBar.Categories := sort_Slice lessOrder categories |}.

Definition loadSidebarData (fs : FileSystem) (dir : gostring)
    : SideBar.t * option error :=
  match loadMarkdownPosts fs dir with
  | (_, Some err) => (SideBar.zero, Some err)
  | (posts, None) => (sidebarOf posts, None)
  end.

Definition sanitizeHeaderForID (header : gostring) : gostring :=
  let header := strings_ToLower header in
  let header := strings.ReplaceAll header " " "-" in
  regexp.strip_outside is_id_char header.

(** [fmt.Sprintf] with the format of the sidebar link and its two [%s]. *)
Definition Sprintf_link (id text : gostring) : gostring :=
  "<li><a href=" ++ [DQUOTE] ++ "#" ++ id ++ [DQUOTE] ++ ">" ++ text ++ "</a></li>".

Definition createSidebarLinks (headers : list gostring) : gostring :=
  fold_left
    (fun linksHTML header =>
       let sanitizedHeader := sanitizeHeaderForID header in
       let link := Sprintf_link sanitizedHeader header in
       linksHTML ++ link)
    headers [].

End Program.

(** ** Instances of the parameters

    Concrete functions that meet what the Go documentation promises of the
    parameters; they serve to run the model on concrete inputs. *)

(** [strings.ToLower] on ASCII text: byte by byte. *)
Definition asciiToLower (s : gostring) : gostring := map lower_byte s.

(** The insertion sort [sort.Slice] runs on slices of at most twelve
    elements: each element moves left past the elements it is less than.
    [sorted_rev] is the sorted prefix, last element first. *)
Fixpoint insertLeft {A} (less : A -> A -> bool) (x : A) (sorted_rev : list A) : list A :=
  match sorted_rev with
  | [] => [x]
  | y :: rest => if less x y then y :: insertLeft less x rest else x :: sorted_rev
  end.

Definition insertionSort {A} (less : A -> A -> bool) (l : list A) : list A :=
  rev (fold_left (fun sorted_rev x => insertLeft less x sorted_rev) l []).

(** What the program may rely on from [sort.Slice]: the result is a
    rearrangement of the slice, in ascending order of the key compared by
    [less]; nothing is promised on elements with equal keys. *)
Definition sort_Slice_spec
    (sort : (Category.t -> Category.t -> bool) -> list Category.t -> list Category.t) : Prop :=
  (forall less l, sort less l ≡ₚ l) /\
  (forall (key : Category.t -> Z) l,
      StronglySorted (fun a b => key a <= key b) (sort (fun a b => key a <? key b) l)).

(** What the program may rely on from [range] over a map: every entry is
    visited once, in no particular order. *)
Definition map_range_spec
    (range : gmap gostring Category.t -> list (gostring * Category.t)) : Prop :=
  forall m, range m ≡ₚ map_to_list m.

(** What the program may rely on from [strings.ToLower]: on ASCII text only
    the letters [A-Z] change. *)
Definition ToLower_spec (lower : gostring -> gostring) : Prop :=
  forall s, forallb is_ascii s = true -> lower s = map lower_byte s.

(** A directory given by its entries and the content of its regular files;
    reading a path that names no listed file fails. *)
Definition pathOf (dir name : gostring) : gostring := dir ++ "/" ++ name.

Definition diskOf (dir : gostring) (files : list (gostring * gostring)) : FileSystem :=
  {| ReadDir := fun d =>
       if bool_decide (d = dir)
       then (map (fun nf => DirEntry.mk (fst nf) false) files, None)
       else ([], Some (PathError "open" d));
     ReadFile := fun p =>
       match List.find (fun nf => bool_decide (pathOf dir (fst nf) = p)) files with
       | Some nf => (snd nf, None)
       | None => ([], Some (PathError "open" p))
       end |}.

(** ** The claim of the specification on key/value extraction, in its words

    Each line matching the pattern gives one entry, the key being the prefix
    before the colon and the value the trimmed remainder of the line; the
    last occurrence of a key wins. *)

Fixpoint split_lines (s : gostring) : list gostring :=
  match s with
  | [] => [[]]
  | c :: s' =>
      if byte_eqb c LF then [] :: split_lines s'
      else match split_lines s' with
           | l :: ls => (c :: l) :: ls
           | [] => [[c]]
           end
  end.

Fixpoint join_lines (ls : list gostring) : gostring :=
  match ls with
  | [] => []
  | [l] => l
  | l :: ls' => l ++ LF :: join_lines ls'
  end.

Definition trim_left (s : gostring) : gostring := drop (regexp.run is_space s) s.
Definition trim_right (s : gostring) : gostring := rev (trim_left (rev s)).
Definition TrimSpace (s : gostring) : gostring := trim_right (trim_left s).

(** The remainder of a line after its key and colon, when the line matches
    the pattern on its own. *)
Definition spec_line_entry (line : gostring) : option (gostring * gostring) :=
  match regexp.meta_pattern line with
  | Some ([_; key; _], _) => Some (key, TrimSpace (drop (length key + 1) line))
  | _ => None
  end.

Definition spec_metaDataMap (metadata : gostring) : gmap gostring gostring :=
  fold_left
    (fun m line =>
       match spec_line_entry line with
       | Some (key, value) => <[key := value]> m
       | None => m
       end)
    (split_lines metadata) ∅.

(** ** Key/value extraction line by line

    A line that starts with word characters and a colon is a key line; its
    value is what follows the colon without the leading white space. *)
Definition line_entry (line : gostring) : option (gostring * gostring) :=
  let n := regexp.run is_word line in
  match drop n line with
  | c :: rest =>
      if (byte_eqb c ":" && negb (n =? 0)%nat)%bool
      then Some (take n line, trim_left rest)
      else None
  | [] => None
  end.

(** A key line with nothing but white space after the colon. *)
Definition blank_key_line (line : gostring) : bool :=
  match line_entry line with
  | Some (_, []) => true
  | _ => false
  end.

Definition entriesMap (lines : list gostring) : gmap gostring gostring :=
  fold_left
    (fun m line =>
       match line_entry line with
       | Some (key, value) => <[key := value]> m
       | None => m
       end)
    lines ∅.

(** The categories in the order in which the posts first name them. *)
Fixpoint discovered (seen : list gostring) (posts : list BlogPost.t) : list gostring :=
  match posts with
  | [] => []
  | p :: posts' =>
      let name := BlogPost.Parent p in
      if bool_decide (name = [] \/ name ∈ seen) then discovered seen posts'
      else name :: discovered (name :: seen) posts'
  end.

(** The first post of a category. *)
Definition firstPage (name : gostring) (posts : list BlogPost.t) : option BlogPost.t :=
  List.find (fun p => bool_decide (BlogPost.Parent p = name)) posts.

(** A post with the given category and rank, everything else empty. *)
Definition page (parent : gostring) (order : Z) : BlogPost.t :=
  BlogPost.mk [] [] parent [] [] order [] [] [] [] [].

(** ** Vocabulary of the properties *)

(** The raw content contains the delimiter token. *)
Definition has_delimiter (content : gostring) : Prop :=
  exists a b, content = a ++ "---" ++ b.

(** The content with every carriage return removed. *)
Definition stripCR (s : gostring) : gostring :=
  List.filter (fun c => negb (byte_eqb c CR)) s.

(** A directory entry whose name ends in the extension of content files. *)
Definition is_md (file : DirEntry.t) : bool :=
  strings.HasSuffix (DirEntry.Name file) ".md".

(** A content file the parser rejects. *)
Definition malformed (fs : FileSystem) (dir : gostring) (file : DirEntry.t) : Prop :=
  is_md file = true /\
  exists content,
    ReadFile fs (dir ++ "/" ++ DirEntry.Name file) = (content, None) /\
    ~ has_delimiter content.

(** Every content file of the list can be read. *)
Definition readable (fs : FileSystem) (dir : gostring) (files : list DirEntry.t) : Prop :=
  forall file, file ∈ files -> is_md file = true ->
    snd (ReadFile fs (dir ++ "/" ++ DirEntry.Name file)) = None.

(** The post a content file gives. *)
Definition parsed_from (mdToHTML : gostring -> gostring) (fs : FileSystem)
    (dir : gostring) (file : DirEntry.t) (post : BlogPost.t) : Prop :=
  exists content,
    ReadFile fs (dir ++ "/" ++ DirEntry.Name file) = (content, None) /\
    parseMarkdownFile mdToHTML content = (post, None).

(** The category a corpus gives to a name: none for the empty name or a
    name no post carries; otherwise the posts of that name in the order of
    the corpus, with the rank of the first of them. *)
Definition categoryOf (posts : list BlogPost.t) (name : gostring) : option Category.t :=
  if bool_decide (name = []) then None
  else match List.filter (fun p => bool_decide (BlogPost.Parent p = name)) posts with
       | [] => None
       | p :: ps =>
           Some {| Category.Name := name;
                   Category.Pages := p :: ps;
                   Category.Order := BlogPost.Order p |}
       end.

(** A metadata block whose rank cannot be read: no [Order] key, or a value
    [strconv.Atoi] rejects. *)
Definition order_unusable (metadata : gostring) : Prop :=
  metaDataMap metadata !! ("Order" : gostring) = None \/
  exists v, metaDataMap metadata !! ("Order" : gostring) = Some v /\ strconv.Atoi v = None.

(** Ascending order of rank. *)
Definition byOrder (a b : Category.t) : Prop := Category.Order a <= Category.Order b.

#[global] Instance byOrder_dec : RelDecision byOrder :=
  fun a b => decide (Category.Order a <= Category.Order b).

(** The corpus of the ordering example: A of rank 5, B of rank 1, C of
    rank 5, discovered in this order. *)
Definition corpusABC : list BlogPost.t := [page "A" 5; page "B" 1; page "C" 5].

(** The end of a line: the end of the text or a line feed. *)
Definition line_end (tail : gostring) : Prop :=
  tail = [] \/ exists rest, tail = LF :: rest.

Definition no_LF (line : gostring) : Prop := forallb is_dot line = true.

(** The matches a line gives when the pattern is applied line by line. *)
Definition line_matches (line : gostring) : list (list gostring) :=
  match line_entry line with
  | Some (key, value) => [[line; key; value]]
  | None => []
  end.

(** The value of the last line that carries the key. *)
Definition last_value (key : gostring) (lines : list gostring) : option gostring :=
  last (omap (fun line =>
                match line_entry line with
                | Some (k, v) => if bool_decide (k = key) then Some v else None
                | None => None
                end) lines).

(** ** Directories of the examples *)

(** Three posts in three categories, and a file that is no content file. *)
Definition demoDisk : FileSystem :=
  diskOf "./markdown"
    [("a.md" : gostring, "Parent: A" ++ [LF] ++ "Order: 5" ++ [LF] ++ "---" ++ [LF] ++ "## One");
     ("b.md" : gostring, "Parent: B" ++ [LF] ++ "Order: 1" ++ [LF] ++ "---" ++ [LF] ++ "## Two");
     ("c.md" : gostring, "Parent: C" ++ [LF] ++ "Order: 5" ++ [LF] ++ "---" ++ [LF] ++ "text");
     ("notes.txt" : gostring, "no delimiter in this file" : gostring)].

(** A content file without the delimiter. *)
Definition brokenDisk : FileSystem :=
  diskOf "./markdown"
    [("a.md" : gostring, "Title: A" ++ [LF] ++ "---" ++ [LF] ++ "text");
     ("bad.md" : gostring, "Title: X" ++ [LF] ++ "No delimiter here")].

(** Two posts of the category Guides, of ranks 2 and 5. *)
Definition guidesDisk : FileSystem :=
  diskOf "./markdown"
    [("p1.md" : gostring, "Parent: Guides" ++ [LF] ++ "Order: 2" ++ [LF] ++ "---" ++ [LF]);
     ("p2.md" : gostring, "Parent: Guides" ++ [LF] ++ "Order: 5" ++ [LF] ++ "---" ++ [LF])].

(** A post without rank and a post of rank 10000. *)
Definition ranksDisk : FileSystem :=
  diskOf "./markdown"
    [("a.md" : gostring, "Parent: A" ++ [LF] ++ "---" ++ [LF]);
     ("b.md" : gostring, "Parent: B" ++ [LF] ++ "Order: 10000" ++ [LF] ++ "---" ++ [LF])].

(** ** The template helper [dict] *)

(** A value of type [interface{}]: a string, or a value of some other
    dynamic type. *)
Inductive any (T : Type) : Type :=
| anyString (s : gostring)
| anyOther (v : T).

Arguments anyString {T} s.
Arguments anyOther {T} v.

(** The loop of [dict] from index [i] on, [values] being [values[i:]]: the
    key must be a string, and the element after it is stored under it.  A
    single trailing string is not reached: [dict] checks the parity of the
    length first. *)
Fixpoint dictLoop {T} (values : list (any T)) (dict : gmap gostring (any T))
    : gmap gostring (any T) * option error :=
  match values with
  | anyString key :: value :: rest => dictLoop rest (<[key := value]> dict)
  | anyOther _ :: _ => (∅, Some (errorString "dict keys must be strings"))
  | _ => (dict, None)
  end.

Definition dict {T} (values : list (any T)) : gmap gostring (any T) * option error :=
  if negb (length values mod 2 =? 0)%nat
  then (∅, Some (errorString "invalid dict call"))
  else dictLoop values ∅.

(** The argument list that spells out the given key/value pairs. *)
Definition flatten_pairs {T} (pairs : list (gostring * any T)) : list (any T) :=
  concat (map (fun kv => [anyString (fst kv); snd kv]) pairs).

(** ** Vocabulary of the further properties *)

(** The heading a line gives on its own: two hashes, at least one white
    space, then the text. *)
Definition heading_entry (line : gostring) : option gostring :=
  match line with
  | c1 :: c2 :: rest =>
      if (byte_eqb c1 "#" && byte_eqb c2 "#"
          && negb (regexp.run is_space rest =? 0)%nat)%bool
      then Some (trim_left rest)
      else None
  | _ => None
  end.

(** A line of two hashes followed by nothing but white space. *)
Definition blank_heading_line (line : gostring) : bool :=
  match line with
  | c1 :: c2 :: rest => (byte_eqb c1 "#" && byte_eqb c2 "#" && forallb is_space rest)%bool
  | _ => false
  end.

(** A directory entry that does not stop the load: no content file, or a
    readable one with the delimiter. *)
Definition loadable (fs : FileSystem) (dir : gostring) (file : DirEntry.t) : Prop :=
  is_md file = true ->
  exists content,
    ReadFile fs (dir ++ "/" ++ DirEntry.Name file) = (content, None) /\
    has_delimiter content.

(** The string fields of a post that come from its metadata. *)
Definition metaFields (post : BlogPost.t) : list gostring :=
  [BlogPost.Title post; BlogPost.Slug post; BlogPost.Parent post;
   BlogPost.Description post; BlogPost.MetaDescription post;
   BlogPost.MetaPropertyTitle post; BlogPost.MetaPropertyDescription post;
   BlogPost.MetaOgURL post].

(** An optional sign followed by decimal digits only. *)
Definition is_numeral (v : gostring) : bool :=
  match v with
  | c :: ds =>
      if (byte_eqb c "-" || byte_eqb c "+")%bool
      then (negb (length ds =? 0)%nat && forallb is_digit ds)%bool
      else forallb is_digit v
  | [] => false
  end.

(** * Properties *)

(** ** Strings *)

Lemma byte_eqb_true (a b : ascii) : byte_eqb a b = true <-> a = b.
Proof. apply Ascii.eqb_eq. Qed.

Lemma byte_eqb_false (a b : ascii) : byte_eqb a b = false <-> a <> b.
Proof. apply Ascii.eqb_neq. Qed.

Lemma byte_eqb_refl (a : ascii) : byte_eqb a a = true.
Proof. apply Ascii.eqb_refl. Qed.

Lemma HasPrefix_true (s p : gostring) :
  strings.HasPrefix s p = true <-> exists r, s = p ++ r.
Proof.
  revert s. induction p as [|c p IH]; intros s; simpl.
  - split; [intros _; by exists s | done].
  - destruct s as [|d s]; simpl.
    + split; [done | intros [r Hr]; discriminate].
    + rewrite andb_true_iff, byte_eqb_true, IH. split.
      * intros [-> [r ->]]. by exists r.
      * intros [r Hr]. injection Hr as -> ->. eauto.
Qed.

Lemma Index_Some (s sep : gostring) (m : nat) :
  strings.Index s sep = Some m ->
  s = take m s ++ sep ++ drop (m + length sep) s.
Proof.
  revert m. induction s as [|c s IH]; intros m; simpl.
  - destruct (strings.HasPrefix [] sep) eqn:E; [|done].
    intros [= <-]. apply HasPrefix_true in E as [r Hr].
    destruct sep; [done | discriminate].
  - destruct (strings.HasPrefix (c :: s) sep) eqn:E.
    + intros [= <-]. apply HasPrefix_true in E as [r Hr].
      simpl. rewrite Hr at 2. by rewrite drop_app_length.
    + destruct (strings.Index s sep) as [k|] eqn:Ek; [|done].
      simpl. intros [= <-]. simpl. f_equal. by apply IH.
Qed.

Lemma Index_None (s sep : gostring) :
  strings.Index s sep = None <-> ~ exists a b, s = a ++ sep ++ b.
Proof.
  induction s as [|c s IH]; simpl.
  - destruct (strings.HasPrefix [] sep) eqn:E.
    + split; [done|]. intros H. destruct H.
      apply HasPrefix_true in E as [r Hr]. by exists [], r.
    + split; [|done]. intros _ [a [b Hab]].
      assert (strings.HasPrefix [] sep = true); [|congruence].
      apply HasPrefix_true. destruct a; [|discriminate]. eauto.
  - destruct (strings.HasPrefix (c :: s) sep) eqn:E.
    + split; [done|]. intros H. destruct H.
      apply HasPrefix_true in E as [r Hr]. by exists [], r.
    + destruct (strings.Index s sep) as [k|] eqn:Ek; simpl.
      * split; [done|]. intros H. destruct H.
        apply Index_Some in Ek. exists (c :: take k s), (drop (k + length sep) s).
        simpl. by f_equal.
      * split; [|done]. intros _ [a [b Hab]].
        destruct a as [|d a].
        -- assert (strings.HasPrefix (c :: s) sep = true); [|congruence].
           apply HasPrefix_true. eauto.
        -- injection Hab as -> ->. apply IH; eauto.
Qed.

Lemma replace_one (c : ascii) (new s : gostring) :
  strings.ReplaceAll s [c] new
  = concat (map (fun x => if byte_eqb x c then new else [x]) s).
Proof.
  unfold strings.ReplaceAll. induction s as [|x s IH]; [done|].
  cbn [strings.replace_from strings.HasPrefix map concat].
  rewrite andb_true_r. destruct (byte_eqb x c); simpl; by rewrite IH.
Qed.

(** Removing one byte everywhere is a filter. *)
Lemma ReplaceAll_delete (c : ascii) (s : gostring) :
  strings.ReplaceAll s [c] [] = List.filter (fun x => negb (byte_eqb x c)) s.
Proof.
  rewrite replace_one. induction s as [|x s IH]; [done|].
  simpl. destruct (byte_eqb x c); simpl; by rewrite IH.
Qed.

(** Replacing one byte by another is a map. *)
Lemma ReplaceAll_byte (c d : ascii) (s : gostring) :
  strings.ReplaceAll s [c] [d] = map (fun x => if byte_eqb x c then d else x) s.
Proof.
  rewrite replace_one. induction s as [|x s IH]; [done|].
  simpl. destruct (byte_eqb x c); simpl; by rewrite IH.
Qed.

Lemma List_filter_app {A} (f : A -> bool) (l1 l2 : list A) :
  List.filter f (l1 ++ l2) = List.filter f l1 ++ List.filter f l2.
Proof. apply List.filter_app. Qed.

(** ** Splitting the front matter from the body *)

Lemma frontMatterBlocks_None (content : gostring) :
  frontMatterBlocks content = None <-> ~ has_delimiter content.
Proof.
  unfold frontMatterBlocks, has_delimiter. rewrite <- Index_None.
  cbn [strings.SplitN]. destruct (strings.Index content "---"); simpl; split; done.
Qed.

Lemma frontMatterBlocks_Some (content : gostring) :
  has_delimiter content ->
  exists a b,
    content = a ++ "---" ++ b /\
    frontMatterBlocks content = Some (stripCR a, stripCR b).
Proof.
  intros Hd. unfold frontMatterBlocks. cbn [strings.SplitN].
  destruct (strings.Index content "---") as [m|] eqn:E.
  - apply Index_Some in E. simpl. rewrite !ReplaceAll_delete.
    exists (take m content), (drop (m + 3) content). split; [exact E | done].
  - apply Index_None in E. by destruct E.
Qed.

Lemma frontMatterBlocks_leading (rest : gostring) :
  frontMatterBlocks ("---" ++ rest) = Some ([], stripCR rest).
Proof.
  unfold frontMatterBlocks. simpl. by rewrite drop_0, !ReplaceAll_delete.
Qed.

(** ** Parsing one file *)

Lemma parseMetaData_nil :
  parseMetaData [] = ([], [], [], [], 9999, [], [], [], []).
Proof. reflexivity. Qed.

Section Parsing.

Variable mdToHTML : gostring -> gostring.

Lemma parseMarkdownFile_None (content : gostring) :
  frontMatterBlocks content = None ->
  parseMarkdownFile mdToHTML content
  = (BlogPost.zero, Some (errorString "invalid markdown format")).
Proof. intros H. unfold parseMarkdownFile. by rewrite H. Qed.

Lemma parseMarkdownFile_Some (content metadata mdContent : gostring) :
  frontMatterBlocks content = Some (metadata, mdContent) ->
  exists post,
    parseMarkdownFile mdToHTML content = (post, None) /\
    BlogPost.Content post = mdToHTML mdContent /\
    BlogPost.Headers post = extractHeaders mdContent /\
    parseMetaData metadata
    = (BlogPost.Title post, BlogPost.Slug post, BlogPost.Parent post,
       BlogPost.Description post, BlogPost.Order post,
       BlogPost.MetaDescription post, BlogPost.MetaPropertyTitle post,
       BlogPost.MetaPropertyDescription post, BlogPost.MetaOgURL post).
Proof.
  intros H. unfold parseMarkdownFile. rewrite H.
  unfold parseMetaData. cbv zeta. eexists. split; [reflexivity|]. done.
Qed.

Lemma parseMarkdownFile_ok_iff (content : gostring) :
  snd (parseMarkdownFile mdToHTML content) = None <-> has_delimiter content.
Proof.
  split.
  - intros H. destruct (strings.Index content "---") as [m|] eqn:Ei.
    + apply Index_Some in Ei. unfold has_delimiter. eauto.
    + apply Index_None, frontMatterBlocks_None in Ei.
      by rewrite (parseMarkdownFile_None _ Ei) in H.
  - intros (a & b & _ & Hb)%frontMatterBlocks_Some.
    destruct (parseMarkdownFile_Some _ _ _ Hb) as (post & -> & _). done.
Qed.

Lemma parseMarkdownFile_err_iff (content : gostring) :
  snd (parseMarkdownFile mdToHTML content) <> None <-> ~ has_delimiter content.
Proof. by rewrite parseMarkdownFile_ok_iff. Qed.

(** ** Loading the directory *)

Lemma loadFiles_malformed fs dir files posts :
  Exists (malformed fs dir) files ->
  exists err,
    loadFiles mdToHTML fs dir files posts = ([], Some err) /\
    (readable fs dir files -> err = errorString "invalid markdown format").
Proof.
  intros Hex. revert posts.
  induction files as [|file files IH]; intros posts; [by inversion Hex|].
  cbn [loadFiles]. fold (is_md file).
  destruct (is_md file) eqn:Emd.
  - destruct (ReadFile fs (dir ++ "/" ++ DirEntry.Name file)) as [content [e|]] eqn:Er.
    + exists e. split; [done|]. intros Hr.
      specialize (Hr file (list_elem_of_here _ _) Emd). by rewrite Er in Hr.
    + destruct (parseMarkdownFile mdToHTML content) as [post [e|]] eqn:Ep.
      * exists e. split; [done|]. intros _.
        destruct (frontMatterBlocks content) as [[m b]|] eqn:Eb.
        -- destruct (parseMarkdownFile_Some _ _ _ Eb) as (p & Hp & _). congruence.
        -- rewrite (parseMarkdownFile_None _ Eb) in Ep. congruence.
      * apply Exists_cons in Hex as [(_ & c & Hc & Hbad)|Hex].
        -- rewrite Er in Hc. injection Hc as <-.
           apply parseMarkdownFile_err_iff in Hbad. by rewrite Ep in Hbad.
        -- destruct (IH Hex (posts ++ [post])) as (e & He & Hre).
           exists e. split; [done|]. intros Hr. apply Hre.
           intros f Hf. apply Hr. by apply list_elem_of_further.
  - apply Exists_cons in Hex as [(Hmd & _)|Hex]; [congruence|].
    destruct (IH Hex posts) as (e & He & Hre).
    exists e. split; [done|]. intros Hr. apply Hre.
    intros f Hf. apply Hr. by apply list_elem_of_further.
Qed.

Lemma loadFiles_filter fs dir files posts :
  loadFiles mdToHTML fs dir files posts
  = loadFiles mdToHTML fs dir (List.filter is_md files) posts.
Proof.
  revert posts. induction files as [|file files IH]; intros posts; [done|].
  cbn [loadFiles List.filter]. fold (is_md file).
  destruct (is_md file) eqn:Emd; [|apply IH].
  cbn [loadFiles]. fold (is_md file). rewrite Emd.
  destruct (ReadFile fs _) as [content [e|]]; [done|].
  destruct (parseMarkdownFile mdToHTML content) as [post [e|]]; [done|apply IH].
Qed.

Lemma loadFiles_agree fs fs' dir files posts :
  (forall file, file ∈ files -> is_md file = true ->
     ReadFile fs' (dir ++ "/" ++ DirEntry.Name file)
     = ReadFile fs (dir ++ "/" ++ DirEntry.Name file)) ->
  loadFiles mdToHTML fs' dir files posts = loadFiles mdToHTML fs dir files posts.
Proof.
  revert posts. induction files as [|file files IH]; intros posts Hag; [done|].
  cbn [loadFiles]. fold (is_md file).
  destruct (is_md file) eqn:Emd.
  - rewrite (Hag file (list_elem_of_here _ _) Emd).
    destruct (ReadFile fs _) as [content [e|]]; [done|].
    destruct (parseMarkdownFile mdToHTML content) as [post [e|]]; [done|].
    apply IH. intros f Hf. apply Hag. by apply list_elem_of_further.
  - apply IH. intros f Hf. apply Hag. by apply list_elem_of_further.
Qed.

Lemma loadFiles_ok fs dir files posts result :
  loadFiles mdToHTML fs dir files posts = (result, None) ->
  exists new,
    result = posts ++ new /\
    Forall2 (parsed_from mdToHTML fs dir) (List.filter is_md files) new.
Proof.
  revert posts. induction files as [|file files IH]; intros posts.
  - cbn. intros [= <-]. exists []. by rewrite app_nil_r.
  - cbn [loadFiles List.filter]. fold (is_md file).
    destruct (is_md file) eqn:Emd; [|apply IH].
    destruct (ReadFile fs _) as [content [e|]] eqn:Er; [done|].
    destruct (parseMarkdownFile mdToHTML content) as [post [e|]] eqn:Ep; [done|].
    intros (new & -> & Hnew)%IH. exists (post :: new).
    split; [by rewrite <- app_assoc|].
    constructor; [|done]. by exists content.
Qed.

Lemma loadFiles_error_nil fs dir files posts result err :
  loadFiles mdToHTML fs dir files posts = (result, Some err) -> result = [].
Proof.
  revert posts. induction files as [|file files IH]; intros posts; [done|].
  cbn [loadFiles].
  destruct (strings.HasSuffix _ _); [|apply IH].
  destruct (ReadFile fs _) as [content [e|]]; [by intros [= <- _]|].
  destruct (parseMarkdownFile mdToHTML content) as [post [e|]];
    [by intros [= <- _]|apply IH].
Qed.

(** C2: [parseMarkdownFile] fails, with the error "invalid markdown format",
    exactly when the raw content does not contain the delimiter [---]; and
    when a content file of the directory fails to parse,
    [loadMarkdownPosts] returns an error and no posts at all, as it does
    with every error: there is no partial corpus. *)
Theorem parse_fails_iff_no_delimiter_and_load_aborts :
  (forall content,
      ~ has_delimiter content <->
      parseMarkdownFile mdToHTML content
      = (BlogPost.zero, Some (errorString "invalid markdown format"))) /\
  (forall content,
      has_delimiter content <-> snd (parseMarkdownFile mdToHTML content) = None) /\
  (forall fs dir files,
      ReadDir fs dir = (files, None) ->
      Exists (malformed fs dir) files ->
      exists err,
        loadMarkdownPosts mdToHTML fs dir = ([], Some err) /\
        (readable fs dir files -> err = errorString "invalid markdown format")) /\
  (forall fs dir posts err,
      loadMarkdownPosts mdToHTML fs dir = (posts, Some err) -> posts = []).
Proof.
  split; [|split; [|split]].
  - intros content. split.
    + intros H. by apply parseMarkdownFile_None, frontMatterBlocks_None.
    + intros H Hd. apply parseMarkdownFile_ok_iff in Hd. by rewrite H in Hd.
  - intros content. symmetry. apply parseMarkdownFile_ok_iff.
  - intros fs dir files Hdir Hbad. unfold loadMarkdownPosts. rewrite Hdir.
    by apply loadFiles_malformed.
  - intros fs dir posts err. unfold loadMarkdownPosts.
    destruct (ReadDir fs dir) as [files [e|]]; [by intros [= <- _]|].
    apply loadFiles_error_nil.
Qed.

(** C5: on every input that contains the delimiter [---],
    [parseMarkdownFile] succeeds, and the two blocks it works on are the
    parts before and after one occurrence of the delimiter, each without
    its carriage returns: metadata block, delimiter and body block
    together are the input without its carriage returns. *)
Theorem parse_blocks_round_trip (content : gostring) :
  has_delimiter content ->
  exists a b post,
    content = a ++ "---" ++ b /\
    frontMatterBlocks content = Some (stripCR a, stripCR b) /\
    stripCR a ++ "---" ++ stripCR b = stripCR content /\
    parseMarkdownFile mdToHTML content = (post, None) /\
    BlogPost.Content post = mdToHTML (stripCR b) /\
    BlogPost.Headers post = extractHeaders (stripCR b).
Proof.
  intros (a & b & Hc & Hb)%frontMatterBlocks_Some.
  destruct (parseMarkdownFile_Some _ _ _ Hb) as (post & Hp & Hcont & Hhead & _).
  exists a, b, post. repeat split; try done.
  rewrite Hc. unfold stripCR. by rewrite !List_filter_app.
Qed.

(** C7: [loadMarkdownPosts] works on exactly the directory entries whose
    name ends in [.md]: the loop over all entries is the loop over those
    entries alone, what the other entries are (sub-directories, unreadable
    files) has no influence on the result, and a successful load has one
    post for each [.md] entry, in the order of the listing. *)
Theorem load_processes_exactly_md_entries fs dir files :
  ReadDir fs dir = (files, None) ->
  loadMarkdownPosts mdToHTML fs dir
  = loadFiles mdToHTML fs dir (List.filter is_md files) [] /\
  (forall fs',
      ReadDir fs' dir = (files, None) ->
      (forall file, file ∈ files -> is_md file = true ->
         ReadFile fs' (dir ++ "/" ++ DirEntry.Name file)
         = ReadFile fs (dir ++ "/" ++ DirEntry.Name file)) ->
      loadMarkdownPosts mdToHTML fs' dir = loadMarkdownPosts mdToHTML fs dir) /\
  (forall posts,
      loadMarkdownPosts mdToHTML fs dir = (posts, None) ->
      Forall2 (parsed_from mdToHTML fs dir) (List.filter is_md files) posts).
Proof.
  intros Hdir. unfold loadMarkdownPosts. rewrite Hdir. split; [|split].
  - apply loadFiles_filter.
  - intros fs' Hdir' Hag. rewrite Hdir'. by apply loadFiles_agree.
  - intros posts (new & -> & Hnew)%loadFiles_ok. done.
Qed.

(** C10: a document that begins with the delimiter [---] has an empty
    metadata block: [parseMarkdownFile] succeeds, every string field taken
    from the metadata is empty and the rank is 9999. *)
Theorem parse_empty_front_matter (rest : gostring) :
  exists post,
    parseMarkdownFile mdToHTML ("---" ++ rest) = (post, None) /\
    BlogPost.Title post = [] /\
    BlogPost.Slug post = [] /\
    BlogPost.Parent post = [] /\
    BlogPost.Description post = [] /\
    BlogPost.MetaDescription post = [] /\
    BlogPost.MetaPropertyTitle post = [] /\
    BlogPost.MetaPropertyDescription post = [] /\
    BlogPost.MetaOgURL post = [] /\
    BlogPost.Order post = 9999.
Proof.
  destruct (parseMarkdownFile_Some _ _ _ (frontMatterBlocks_leading rest))
    as (post & Hp & _ & _ & Hmeta).
  exists post. split; [exact Hp|].
  rewrite parseMetaData_nil in Hmeta. by simplify_eq.
Qed.

End Parsing.

(** ** Heading links *)

Lemma id_char_plain (c : ascii) :
  is_id_char c = true ->
  is_ascii c = true /\ lower_byte c = c /\ byte_eqb c SP = false.
Proof.
  destruct c as [[] [] [] [] [] [] [] []]; vm_compute; intuition congruence.
Qed.

Section Links.

Variable strings_ToLower : gostring -> gostring.
Hypothesis ToLower_ok : ToLower_spec strings_ToLower.

Local Abbreviation sanitize := (sanitizeHeaderForID strings_ToLower).

Lemma sanitize_unfold (header : gostring) :
  sanitize header
  = List.filter is_id_char
      (map (fun x => if byte_eqb x SP then HYPHEN else x) (strings_ToLower header)).
Proof.
  unfold sanitizeHeaderForID, regexp.strip_outside.
  by rewrite <- (ReplaceAll_byte SP HYPHEN).
Qed.

Lemma sanitize_id_chars (header : gostring) :
  forallb is_id_char (sanitize header) = true.
Proof.
  rewrite sanitize_unfold. apply forallb_forall.
  intros c Hc. by apply List.filter_In in Hc as [_ Hc].
Qed.

(** On a string of lower-case letters, digits and hyphens every step of
    [sanitizeHeaderForID] is the identity. *)
Lemma sanitize_fixed (s : gostring) :
  forallb is_id_char s = true -> sanitize s = s.
Proof.
  intros Hs. rewrite sanitize_unfold, ToLower_ok.
  - induction s as [|c s IH]; [done|].
    cbn in Hs. apply andb_true_iff in Hs as [Hc Hs].
    destruct (id_char_plain c Hc) as (_ & Hl & Hsp).
    cbn. rewrite Hl, Hsp, Hc. f_equal. by apply IH.
  - apply forallb_forall. intros c Hc.
    rewrite forallb_forall in Hs. by apply id_char_plain, Hs.
Qed.

(** C9: [sanitizeHeaderForID] is idempotent. *)
Theorem sanitize_idempotent (x : gostring) :
  sanitizeHeaderForID strings_ToLower (sanitizeHeaderForID strings_ToLower x)
  = sanitizeHeaderForID strings_ToLower x.
Proof. apply sanitize_fixed, sanitize_id_chars. Qed.

Lemma links_fold (headers : list gostring) (acc : gostring) :
  fold_left
    (fun linksHTML header =>
       linksHTML ++ Sprintf_link (sanitize header) header)
    headers acc
  = acc ++ concat (map (fun header => Sprintf_link (sanitize header) header) headers).
Proof.
  revert acc. induction headers as [|h headers IH]; intros acc; simpl.
  - by rewrite app_nil_r.
  - by rewrite IH, <- app_assoc.
Qed.

(** C8: [createSidebarLinks] is the concatenation of one link per
    heading, in the order of the headings; the link of a heading is the
    list item whose anchor is [sanitizeHeaderForID] of the heading, between
    double quotes (the byte 34) after the hash sign, and whose text is the
    heading itself.  Headings with equal anchors, as "API Design!" and
    "API Design?", give two links with the same anchor and no error. *)
Theorem links_one_per_heading :
  (forall headers : list gostring,
      exists links : list gostring,
        createSidebarLinks strings_ToLower headers = concat links /\
        Forall2
          (fun header link =>
             link = "<li><a href=" ++ ["034"%char] ++ "#"
                    ++ sanitizeHeaderForID strings_ToLower header
                    ++ ["034"%char] ++ ">" ++ header ++ "</a></li>")
          headers links) /\
  sanitizeHeaderForID strings_ToLower "API Design!" = "api-design" /\
  sanitizeHeaderForID strings_ToLower "API Design?" = "api-design" /\
  createSidebarLinks strings_ToLower ["API Design!" : gostring; "API Design?" : gostring]
  = "<li><a href=" ++ ["034"%char] ++ "#api-design" ++ ["034"%char]
    ++ ">API Design!</a></li>"
    ++ "<li><a href=" ++ ["034"%char] ++ "#api-design" ++ ["034"%char]
    ++ ">API Design?</a></li>".
Proof.
  assert (H1 : sanitize "API Design!" = "api-design").
  { rewrite sanitize_unfold, ToLower_ok; reflexivity. }
  assert (H2 : sanitize "API Design?" = "api-design").
  { rewrite sanitize_unfold, ToLower_ok; reflexivity. }
  split; [|split; [exact H1|split; [exact H2|]]].
  - intros headers.
    exists (map (fun header => Sprintf_link (sanitize header) header) headers).
    split.
    + unfold createSidebarLinks. cbv zeta. by rewrite links_fold.
    + induction headers as [|header headers IH]; constructor; [reflexivity|exact IH].
  - unfold createSidebarLinks. cbv zeta. rewrite links_fold.
    cbn [map concat]. rewrite H1, H2. reflexivity.
Qed.

End Links.

(** ** The insertion sort meets the contract of [sort.Slice] *)

Lemma insertLeft_perm {A} (less : A -> A -> bool) (x : A) (l : list A) :
  insertLeft less x l ≡ₚ x :: l.
Proof.
  induction l as [|y l IH]; simpl; [done|].
  destruct (less x y); [|done]. rewrite IH. apply Permutation_swap.
Qed.

Lemma insertionSort_perm {A} (less : A -> A -> bool) (l : list A) :
  insertionSort less l ≡ₚ l.
Proof.
  unfold insertionSort. rewrite <- Permutation_rev.
  assert (H : forall acc,
             fold_left (fun sorted_rev x => insertLeft less x sorted_rev) l acc
             ≡ₚ l ++ acc).
  { induction l as [|x l IH]; intros acc; simpl; [done|].
    rewrite IH, insertLeft_perm. by rewrite Permutation_middle. }
  by rewrite H, app_nil_r.
Qed.

Section InsertionSortKey.

Context {A : Type} (key : A -> Z).

Let less (a b : A) : bool := key a <? key b.
Let desc (a b : A) : Prop := key b <= key a.
Let asc (a b : A) : Prop := key a <= key b.

Lemma insertLeft_sorted (x : A) (l : list A) :
  StronglySorted desc l -> StronglySorted desc (insertLeft less x l).
Proof.
  induction 1 as [|y l Hl IH Hy]; simpl.
  - repeat constructor.
  - unfold less at 1. destruct (Z.ltb_spec (key x) (key y)) as [Hlt|Hge].
    + constructor; [exact IH|].
      rewrite Forall_forall in *. intros b Hb.
      rewrite insertLeft_perm in Hb.
      apply elem_of_cons in Hb as [->|Hb]; [unfold desc; lia|].
      by apply Hy.
    + constructor; [by constructor|].
      constructor; [exact Hge|].
      eapply Forall_impl; [exact Hy|]. unfold desc. simpl. intros; lia.
Qed.

Lemma StronglySorted_rev_desc (l : list A) :
  StronglySorted desc l -> StronglySorted asc (rev l).
Proof.
  induction 1 as [|y l Hl IH Hy]; simpl; [constructor|].
  apply StronglySorted_app. split; [|split; [exact IH|repeat constructor]].
  intros a b Ha Hb. apply list_elem_of_singleton in Hb as ->.
  rewrite Forall_forall in Hy. apply Hy.
  apply list_elem_of_In. apply in_rev. by apply list_elem_of_In.
Qed.

Lemma insertionSort_sorted (l : list A) :
  StronglySorted asc (insertionSort less l).
Proof.
  unfold insertionSort. apply StronglySorted_rev_desc.
  assert (H : forall acc, StronglySorted desc acc ->
             StronglySorted desc
               (fold_left (fun sorted_rev x => insertLeft less x sorted_rev) l acc)).
  { induction l as [|x l IH]; intros acc Hacc; simpl; [done|].
    by apply IH, insertLeft_sorted. }
  apply H. constructor.
Qed.

End InsertionSortKey.

Lemma insertionSort_spec : sort_Slice_spec insertionSort.
Proof.
  split.
  - intros less l. apply insertionSort_perm.
  - intros key l. apply insertionSort_sorted.
Qed.

Lemma map_to_list_spec : map_range_spec map_to_list.
Proof. by intros m. Qed.

Lemma asciiToLower_spec : ToLower_spec asciiToLower.
Proof. by intros s _. Qed.

(** ** Grouping the posts into categories *)

Lemma groupPosts_snoc (posts : list BlogPost.t) (p : BlogPost.t) :
  groupPosts (posts ++ [p]) = addPost (groupPosts posts) p.
Proof. unfold groupPosts. by rewrite fold_left_app. Qed.

Lemma groupPosts_lookup (posts : list BlogPost.t) (name : gostring) :
  groupPosts posts !! name = categoryOf posts name.
Proof.
  revert name. induction posts as [|p posts IH] using rev_ind; intros name.
  - unfold groupPosts, categoryOf. simpl. rewrite lookup_empty. by case_bool_decide.
  - rewrite groupPosts_snoc. unfold addPost.
    case_bool_decide as Hp.
    + destruct (decide (name = BlogPost.Parent p)) as [->|Hne].
      * rewrite IH. unfold categoryOf.
        rewrite bool_decide_eq_false_2 by done.
        rewrite List.filter_app. cbn [List.filter].
        rewrite bool_decide_eq_true_2 by done.
        destruct (List.filter _ posts) as [|p0 ps]; by rewrite lookup_insert_eq.
      * assert (Hlk : forall c, <[BlogPost.Parent p := c]> (groupPosts posts) !! name
                                = categoryOf (posts ++ [p]) name).
        { intros c. rewrite lookup_insert_ne by done. rewrite IH.
          unfold categoryOf. rewrite List.filter_app. cbn [List.filter].
          rewrite (bool_decide_eq_false_2 (BlogPost.Parent p = name)) by done.
          by rewrite app_nil_r. }
        destruct (groupPosts posts !! BlogPost.Parent p); apply Hlk.
    + assert (Hnil : BlogPost.Parent p = []).
      { destruct (decide (BlogPost.Parent p = [])); [done|]. by destruct Hp. }
      rewrite IH. unfold categoryOf. case_bool_decide as Hn; [done|].
      rewrite List.filter_app. cbn [List.filter].
      rewrite (bool_decide_eq_false_2 (BlogPost.Parent p = name)) by congruence.
      by rewrite app_nil_r.
Qed.

Lemma find_filter_head {A} (f : A -> bool) (l : list A) :
  List.find f l = head (List.filter f l).
Proof. induction l as [|x l IH]; simpl; [done|]. by destruct (f x). Qed.

Lemma categoryOf_Some posts name c :
  categoryOf posts name = Some c ->
  name <> [] /\ Category.Name c = name /\
  exists p, firstPage name posts = Some p /\ Category.Order c = BlogPost.Order p.
Proof.
  unfold categoryOf, firstPage. case_bool_decide as Hn; [done|].
  rewrite find_filter_head.
  destruct (List.filter _ posts) as [|p ps]; [done|].
  intros [= <-]. simpl. eauto.
Qed.

Lemma categoryOf_first posts p :
  BlogPost.Parent p <> [] ->
  firstPage (BlogPost.Parent p) posts = Some p ->
  exists c, categoryOf posts (BlogPost.Parent p) = Some c /\
            Category.Name c = BlogPost.Parent p /\
            Category.Order c = BlogPost.Order p.
Proof.
  unfold categoryOf, firstPage. intros Hn. rewrite find_filter_head.
  rewrite bool_decide_eq_false_2 by done.
  destruct (List.filter _ posts) as [|p0 ps]; [done|].
  simpl. intros [= ->]. eauto.
Qed.

Lemma categoryOf_is_Some posts name :
  is_Some (categoryOf posts name) <->
  name <> [] /\ exists p, p ∈ posts /\ BlogPost.Parent p = name.
Proof.
  unfold categoryOf. case_bool_decide as Hn.
  - split; [by intros [? ?]|]. by intros [? _].
  - destruct (List.filter _ posts) as [|p ps] eqn:E.
    + split; [by intros [? ?]|]. intros (_ & p & Hp & Hpar).
      assert (Hin : In p (List.filter
                (fun p => bool_decide (BlogPost.Parent p = name)) posts)).
      { apply List.filter_In. split; [by apply list_elem_of_In|].
        by apply bool_decide_eq_true_2. }
      by rewrite E in Hin.
    + split; [|by eauto]. intros _. split; [done|]. exists p.
      assert (Hin : In p (List.filter
                (fun p => bool_decide (BlogPost.Parent p = name)) posts)).
      { rewrite E. by left. }
      apply List.filter_In in Hin as [Hin Hb].
      split; [by apply list_elem_of_In|]. by apply bool_decide_eq_true_1 in Hb.
Qed.

Lemma discovered_elem (seen : list gostring) (posts : list BlogPost.t) (name : gostring) :
  name ∈ discovered seen posts <->
  name <> [] /\ (name ∉ seen) /\ exists p, p ∈ posts /\ BlogPost.Parent p = name.
Proof.
  revert seen. induction posts as [|p posts IH]; intros seen; cbn [discovered].
  - split; [by intros ?%elem_of_nil|]. by intros (_ & _ & q & ?%elem_of_nil & _).
  - case_bool_decide as Hp.
    + rewrite IH. split.
      * intros (? & ? & q & ? & ?). repeat split; try done.
        exists q. split; [by apply elem_of_cons; right|done].
      * intros (Hn & Hs & q & [->|Hq]%elem_of_cons & Hpar).
        -- destruct Hp as [Hp|Hp]; congruence.
        -- eauto.
    + rewrite elem_of_cons, IH. split.
      * intros [->|(Hn & Hs & q & Hq & Hpar)].
        -- repeat split; [tauto|tauto|]. exists p. split; [by left|done].
        -- repeat split; [done| |].
           ++ intros ?. apply Hs. by right.
           ++ exists q. split; [by right|done].
      * intros (Hn & Hs & q & [->|Hq]%elem_of_cons & Hpar); [by left|].
        destruct (decide (name = BlogPost.Parent p)) as [|Hne]; [by left|].
        right. repeat split; [done| |by eauto].
        by intros [?|?]%elem_of_cons.
Qed.

Lemma discovered_NoDup (seen : list gostring) (posts : list BlogPost.t) :
  NoDup (discovered seen posts).
Proof.
  revert seen. induction posts as [|p posts IH]; intros seen; cbn [discovered].
  - constructor.
  - case_bool_decide; [apply IH|].
    constructor; [|apply IH].
    rewrite discovered_elem. intros (_ & Hs & _). apply Hs. by left.
Qed.

Lemma StronglySorted_lookup_lt {A} (R : A -> A -> Prop) (l : list A) (i j : nat) (x y : A) :
  StronglySorted R l -> (i < j)%nat -> l !! i = Some x -> l !! j = Some y -> R x y.
Proof.
  intros Hs. revert i j. induction Hs as [|a l Hs IH Ha]; intros i j Hij Hi Hj.
  - done.
  - destruct j as [|j]; [lia|]. destruct i as [|i]; simpl in *.
    + injection Hi as <-. rewrite Forall_forall in Ha.
      apply Ha. by eapply list_elem_of_lookup_2.
    + eapply (IH i j); [lia|done..].
Qed.

(** ** The sidebar *)

Lemma parseMetaData_order (metadata : gostring) :
  order_unusable metadata ->
  exists title slug parent description md mt mpd url,
    parseMetaData metadata
    = (title, slug, parent, description, 9999, md, mt, mpd, url).
Proof.
  intros H. unfold parseMetaData. cbv zeta.
  assert (Ha : strconv.Atoi (map_get (metaDataMap metadata) "Order") = None).
  { unfold map_get. destruct H as [->|(v & -> & Hv)]; [reflexivity|exact Hv]. }
  rewrite Ha. by repeat eexists.
Qed.

Section Sidebar.

Variable mdToHTML : gostring -> gostring.
Variable sort_Slice :
  (Category.t -> Category.t -> bool) -> list Category.t -> list Category.t.
Variable map_range :
  gmap gostring Category.t -> list (gostring * Category.t).
Hypothesis sort_ok : sort_Slice_spec sort_Slice.
Hypothesis range_ok : map_range_spec map_range.

Local Abbreviation sidebar := (sidebarOf sort_Slice map_range).

Lemma collect_fold (l : list (gostring * Category.t)) (acc : list Category.t) :
  fold_left (fun cs kv => cs ++ [snd kv]) l acc = acc ++ map snd l.
Proof.
  revert acc. induction l as [|kv l IH]; intros acc; simpl.
  - by rewrite app_nil_r.
  - by rewrite IH, <- app_assoc.
Qed.

Lemma sidebar_perm (posts : list BlogPost.t) :
  SideBar.Categories (sidebar posts) ≡ₚ map snd (map_to_list (groupPosts posts)).
Proof.
  unfold sidebarOf. cbn. rewrite collect_fold. cbn.
  destruct sort_ok as [Hperm _]. rewrite Hperm.
  apply Permutation_map, range_ok.
Qed.

Lemma sidebar_sorted (posts : list BlogPost.t) :
  StronglySorted byOrder (SideBar.Categories (sidebar posts)).
Proof. destruct sort_ok as [_ Hsorted]. apply (Hsorted Category.Order). Qed.

Lemma in_sidebar (posts : list BlogPost.t) (c : Category.t) :
  c ∈ SideBar.Categories (sidebar posts) <->
  exists name, categoryOf posts name = Some c.
Proof.
  rewrite sidebar_perm, list_elem_of_In, in_map_iff. split.
  - intros ([k c'] & <- & Hin). exists k.
    apply list_elem_of_In, elem_of_map_to_list in Hin.
    by rewrite <- groupPosts_lookup.
  - intros (k & Hk). exists (k, c). split; [done|].
    apply list_elem_of_In, elem_of_map_to_list. by rewrite groupPosts_lookup.
Qed.

Lemma sidebar_names (posts : list BlogPost.t) :
  map Category.Name (SideBar.Categories (sidebar posts)) ≡ₚ discovered [] posts.
Proof.
  assert (Hfst : map Category.Name (SideBar.Categories (sidebar posts))
                 ≡ₚ map fst (map_to_list (groupPosts posts))).
  { rewrite sidebar_perm, map_map. rewrite (map_ext_in _ fst); [done|].
    intros [k c] Hin. apply list_elem_of_In, elem_of_map_to_list in Hin.
    rewrite groupPosts_lookup in Hin. by apply categoryOf_Some in Hin as (_ & ? & _). }
  rewrite Hfst. apply NoDup_Permutation.
  - apply (NoDup_fst_map_to_list (groupPosts posts)).
  - apply discovered_NoDup.
  - intros k. rewrite discovered_elem.
    transitivity (is_Some (groupPosts posts !! k)).
    + rewrite list_elem_of_In, in_map_iff. split.
      * intros ([k' c] & <- & Hin).
        apply list_elem_of_In, elem_of_map_to_list in Hin. simpl. eauto.
      * intros [c Hc]. exists (k, c). split; [done|].
        by apply list_elem_of_In, elem_of_map_to_list.
    + rewrite groupPosts_lookup, categoryOf_is_Some. split.
      * intros (? & ?). split; [done|]. split; [by intros ?%elem_of_nil|done].
      * intros (? & _ & ?). done.
Qed.

Lemma loadSidebarData_ok fs dir posts :
  loadMarkdownPosts mdToHTML fs dir = (posts, None) ->
  loadSidebarData mdToHTML sort_Slice map_range fs dir = (sidebar posts, None).
Proof. intros H. unfold loadSidebarData. by rewrite H. Qed.

(** C1, as the program has it: the categories of the sidebar are in
    ascending order of rank and are the categories the posts name, each
    once; the order of two categories of equal rank is not fixed.  For the
    categories A (rank 5), B (rank 1), C (rank 5), discovered in this
    order, the result is B, A, C or B, C, A. *)
Theorem categories_sorted_by_rank :
  (forall fs dir posts,
      loadMarkdownPosts mdToHTML fs dir = (posts, None) ->
      exists sb,
        loadSidebarData mdToHTML sort_Slice map_range fs dir = (sb, None) /\
        StronglySorted byOrder (SideBar.Categories sb) /\
        map Category.Name (SideBar.Categories sb) ≡ₚ discovered [] posts) /\
  (map Category.Name
       (SideBar.Categories (sidebarOf sort_Slice map_range corpusABC))
   = ["B" : gostring; "A" : gostring; "C" : gostring] \/
   map Category.Name
       (SideBar.Categories (sidebarOf sort_Slice map_range corpusABC))
   = ["B" : gostring; "C" : gostring; "A" : gostring]).
Proof.
  split.
  - intros fs dir posts Hload. exists (sidebar posts).
    split; [by apply loadSidebarData_ok|].
    split; [apply sidebar_sorted|apply sidebar_names].
  - pose proof (sidebar_sorted corpusABC) as Hs.
    pose proof (sidebar_perm corpusABC) as Hp.
    remember (SideBar.Categories (sidebar corpusABC)) as out eqn:Eo. clear Eo.
    symmetry in Hp. apply permutations_Permutation in Hp.
    vm_compute in Hp.
    repeat (apply elem_of_cons in Hp as [->|Hp]);
      try (by apply elem_of_nil in Hp);
      try (by left); try (by right);
      exfalso; revert Hs; apply (bool_decide_eq_false_1 _); by vm_compute.
Qed.

(** C3: the rank of every category of the sidebar is the rank of the
    first post of the corpus that names the category, whatever the ranks
    of the later posts of the category are; two posts of category "Guides"
    with ranks 2 and 5, in this order, give the category "Guides" the
    rank 2. *)
Theorem category_rank_is_first_page_rank :
  (forall fs dir posts,
      loadMarkdownPosts mdToHTML fs dir = (posts, None) ->
      exists sb,
        loadSidebarData mdToHTML sort_Slice map_range fs dir = (sb, None) /\
        forall c, c ∈ SideBar.Categories sb ->
          exists p, firstPage (Category.Name c) posts = Some p /\
                    Category.Order c = BlogPost.Order p) /\
  (forall p1 p2,
      BlogPost.Parent p1 = "Guides" -> BlogPost.Order p1 = 2 ->
      BlogPost.Parent p2 = "Guides" -> BlogPost.Order p2 = 5 ->
      SideBar.Categories (sidebarOf sort_Slice map_range [p1; p2])
      = [ {| Category.Name := "Guides";
             Category.Pages := [p1; p2];
             Category.Order := 2 |} ]).
Proof.
  split.
  - intros fs dir posts Hload. exists (sidebar posts).
    split; [by apply loadSidebarData_ok|].
    intros c (name & Hc)%in_sidebar.
    apply categoryOf_Some in Hc as (_ & -> & p & Hp & Ho). eauto.
  - intros p1 p2 Hp1 Ho1 Hp2 Ho2.
    apply Permutation_singleton_r. rewrite sidebar_perm.
    unfold groupPosts. cbn [fold_left]. unfold addPost.
    rewrite Hp1, Hp2. rewrite bool_decide_eq_true_2 by done.
    rewrite lookup_empty, lookup_insert_eq, insert_insert_eq, insert_empty.
    rewrite map_to_list_singleton. cbn. by rewrite Ho1.
Qed.

(** C6, as the program has it: a metadata block without the [Order] key,
    or one whose [Order] value is no integer, gives the rank 9999 and no
    error; and the category that takes its rank from such a post comes
    after every category whose rank is a number below 9999. *)
Theorem missing_order_defaults_to_9999 :
  (forall metadata,
      order_unusable metadata ->
      exists title slug parent description md mt mpd url,
        parseMetaData metadata
        = (title, slug, parent, description, 9999, md, mt, mpd, url)) /\
  (forall content metadata mdContent,
      frontMatterBlocks content = Some (metadata, mdContent) ->
      order_unusable metadata ->
      exists post,
        parseMarkdownFile mdToHTML content = (post, None) /\
        BlogPost.Order post = 9999) /\
  (forall posts p q,
      BlogPost.Parent p <> [] -> BlogPost.Parent q <> [] ->
      firstPage (BlogPost.Parent p) posts = Some p ->
      firstPage (BlogPost.Parent q) posts = Some q ->
      BlogPost.Order p = 9999 -> BlogPost.Order q < 9999 ->
      exists i j c d,
        SideBar.Categories (sidebarOf sort_Slice map_range posts) !! i = Some c /\
        Category.Name c = BlogPost.Parent p /\
        SideBar.Categories (sidebarOf sort_Slice map_range posts) !! j = Some d /\
        Category.Name d = BlogPost.Parent q /\
        (j < i)%nat).
Proof.
  split; [exact parseMetaData_order|split].
  - intros content metadata mdContent Hb Hu.
    destruct (parseMarkdownFile_Some mdToHTML _ _ _ Hb) as (post & Hp & _ & _ & Hm).
    destruct (parseMetaData_order _ Hu) as (? & ? & ? & ? & ? & ? & ? & ? & Hm').
    exists post. split; [exact Hp|]. rewrite Hm in Hm'. by simplify_eq.
  - intros posts p q Hp Hq Hfp Hfq Hop Hoq.
    destruct (categoryOf_first _ _ Hp Hfp) as (c & Hc & Hcn & Hco).
    destruct (categoryOf_first _ _ Hq Hfq) as (d & Hd & Hdn & Hdo).
    assert (Hinc : c ∈ SideBar.Categories (sidebar posts)) by (apply in_sidebar; eauto).
    assert (Hind : d ∈ SideBar.Categories (sidebar posts)) by (apply in_sidebar; eauto).
    apply list_elem_of_lookup in Hinc as [i Hi].
    apply list_elem_of_lookup in Hind as [j Hj].
    exists i, j, c, d. repeat split; try done.
    destruct (decide (j < i)%nat) as [|Hge]; [done|]. exfalso.
    destruct (decide (i = j)) as [->|Hne].
    + rewrite Hi in Hj. injection Hj as ->. lia.
    + pose proof (StronglySorted_lookup_lt _ _ i j c d (sidebar_sorted posts)) as H.
      unfold byOrder in H. specialize (H ltac:(lia) Hi Hj). lia.
Qed.

End Sidebar.

(** ** The metadata pattern, line by line *)

Lemma run_le (p : ascii -> bool) (s : gostring) : (regexp.run p s <= length s)%nat.
Proof. induction s as [|c s IH]; simpl; [lia|]. destruct (p c); simpl; lia. Qed.

Lemma run_take (p : ascii -> bool) (s : gostring) :
  forallb p (take (regexp.run p s) s) = true.
Proof.
  induction s as [|c s IH]; simpl; [done|].
  destruct (p c) eqn:E; simpl; [by rewrite E|done].
Qed.

Lemma run_drop (p : ascii -> bool) (s : gostring) (c : ascii) (r : gostring) :
  drop (regexp.run p s) s = c :: r -> p c = false.
Proof.
  induction s as [|d s IH]; simpl; [done|].
  destruct (p d) eqn:E; simpl; [exact IH|]. by intros [= <- _].
Qed.

Lemma run_all (p : ascii -> bool) (s : gostring) :
  forallb p s = true -> regexp.run p s = length s.
Proof.
  induction s as [|c s IH]; simpl; [done|].
  intros [-> Hs]%andb_true_iff. by rewrite IH.
Qed.

Lemma run_app (p : ascii -> bool) (xs ys : gostring) :
  regexp.run p (xs ++ ys)
  = if (regexp.run p xs =? length xs)%nat
    then (length xs + regexp.run p ys)%nat
    else regexp.run p xs.
Proof.
  induction xs as [|c xs IH]; simpl; [done|].
  destruct (p c); simpl; [|done]. rewrite IH.
  by destruct (regexp.run p xs =? length xs)%nat.
Qed.

Lemma run_app_short (p : ascii -> bool) (xs ys : gostring) :
  (regexp.run p xs < length xs)%nat -> regexp.run p (xs ++ ys) = regexp.run p xs.
Proof.
  intros H. rewrite run_app.
  destruct (Nat.eqb_spec (regexp.run p xs) (length xs)); [lia|done].
Qed.

Lemma run_lookup (p : ascii -> bool) (s : gostring) (i : nat) (c : ascii) :
  (i < regexp.run p s)%nat -> s !! i = Some c -> p c = true.
Proof.
  revert i. induction s as [|d s IH]; intros i; simpl; [lia|].
  destruct (p d) eqn:E; [|lia].
  destruct i as [|i]; simpl; [by intros _ [= <-]|].
  intros Hi. apply IH. lia.
Qed.

Lemma longest_first_None {A} (lo n : nat) (k : nat -> option A) :
  (forall m, (lo <= m <= n)%nat -> k m = None) ->
  regexp.longest_first lo n k = None.
Proof.
  intros Hk. induction n as [|n IH]; simpl.
  - destruct (0 <? lo)%nat eqn:E; [done|].
    apply Nat.ltb_ge in E. rewrite Hk by lia. done.
  - destruct (S n <? lo)%nat eqn:E; [done|].
    apply Nat.ltb_ge in E. rewrite Hk by lia.
    apply IH. intros m Hm. apply Hk. lia.
Qed.

Lemma longest_first_hit {A} (lo n : nat) (k : nat -> option A) (a : A) :
  (lo <= n)%nat -> k n = Some a -> regexp.longest_first lo n k = Some a.
Proof.
  intros Hlo Hk. destruct n; simpl.
  - destruct (0 <? lo)%nat eqn:E; [apply Nat.ltb_lt in E; lia|]. by rewrite Hk.
  - destruct (S n <? lo)%nat eqn:E; [apply Nat.ltb_lt in E; lia|]. by rewrite Hk.
Qed.

Lemma run_line_end (p : ascii -> bool) (tail : gostring) :
  p LF = false -> line_end tail -> regexp.run p tail = 0%nat.
Proof. intros Hp [->|[rest ->]]; simpl; [done|by rewrite Hp]. Qed.

Lemma no_LF_app (xs ys : gostring) : no_LF (xs ++ ys) <-> no_LF xs /\ no_LF ys.
Proof. unfold no_LF. rewrite forallb_app. apply andb_true_iff. Qed.

Lemma is_word_not_colon (c : ascii) : is_word c = true -> byte_eqb c ":" = false.
Proof. destruct c as [[] [] [] [] [] [] [] []]; vm_compute; congruence. Qed.

(** A line that is no key line gives no match at its start. *)
Lemma meta_pattern_no_key (line tail : gostring) :
  line_end tail -> line_entry line = None ->
  regexp.meta_pattern (line ++ tail) = None.
Proof.
  intros Htail. unfold line_entry, regexp.meta_pattern, regexp.greedy.
  set (n := regexp.run is_word line). intros Hentry.
  assert (Hn : regexp.run is_word (line ++ tail) = n).
  { rewrite run_app. fold n. destruct (Nat.eqb_spec n (length line)); [|done].
    rewrite run_line_end; [lia|done|done]. }
  rewrite Hn. apply longest_first_None. intros m [Hm1 Hm2].
  destruct (drop m (line ++ tail)) as [|c r2] eqn:Ed; [done|].
  destruct (byte_eqb c ":") eqn:Ec; [exfalso|done].
  apply byte_eqb_true in Ec as ->.
  assert (Hc : (line ++ tail) !! m = Some ":"%char).
  { rewrite <- (take_drop m (line ++ tail)) at 1. rewrite Ed.
    rewrite lookup_app_r by (rewrite length_take; lia).
    rewrite length_take.
    assert (Hlen : (m < length (line ++ tail))%nat).
    { destruct (decide (m < length (line ++ tail))%nat); [done|].
      rewrite drop_ge in Ed by lia. done. }
    by replace (m - m `min` length (line ++ tail))%nat with 0%nat by lia. }
  destruct (decide (m < n)%nat) as [Hlt|Hge].
  - rewrite <- Hn in Hlt. by pose proof (run_lookup _ _ _ _ Hlt Hc).
  - assert (m = n) as -> by lia.
    pose proof (run_le is_word line) as Hle. fold n in Hle.
    destruct (decide (n = length line)) as [Heq|Hne].
    + rewrite lookup_app_r in Hc by lia.
      replace (n - length line)%nat with 0%nat in Hc by lia.
      destruct Htail as [->|[rest ->]]; simpl in Hc; [done|]. by injection Hc.
    + rewrite lookup_app_l in Hc by lia.
      destruct (drop n line) as [|d rest] eqn:Edl.
      { assert (length (drop n line) = 0%nat) by (by rewrite Edl).
        rewrite length_drop in *. lia. }
      assert (d = ":"%char) as ->.
      { rewrite <- (take_drop n line), Edl in Hc.
        rewrite lookup_app_r in Hc by (rewrite length_take; lia).
        rewrite length_take in Hc.
        replace (n - n `min` length line)%nat with 0%nat in Hc by lia.
        by injection Hc. }
      simpl in Hentry. destruct (Nat.eqb_spec n 0); [lia|done].
Qed.

(** A key line with a value gives the match of the whole line. *)
Lemma meta_pattern_key (line tail key value : gostring) :
  no_LF line -> line_end tail ->
  line_entry line = Some (key, value) -> value <> [] ->
  regexp.meta_pattern (line ++ tail) = Some ([line; key; value], length line).
Proof.
  intros Hline Htail. unfold line_entry.
  set (n := regexp.run is_word line).
  destruct (drop n line) as [|c rest] eqn:Ed; [done|].
  destruct (byte_eqb c ":") eqn:Ec; [|done].
  destruct (Nat.eqb_spec n 0) as [|Hn0]; [done|]. simpl.
  apply byte_eqb_true in Ec as ->.
  intros [= <- <-] Hval.
  assert (Hsplit : line = take n line ++ ":"%char :: rest).
  { by rewrite <- Ed, take_drop. }
  assert (Hlt : (n < length line)%nat).
  { destruct (decide (n < length line)%nat); [done|].
    rewrite drop_ge in Ed by lia. done. }
  unfold trim_left in *. set (w := regexp.run is_space rest) in *.
  assert (Hw : (w < length rest)%nat).
  { destruct (decide (w < length rest)%nat); [done|].
    rewrite drop_ge in Hval by lia. done. }
  assert (Hno : no_LF (drop w rest)).
  { rewrite Hsplit in Hline. apply no_LF_app in Hline as [_ Hline].
    change (no_LF ([":"%char] ++ rest)) in Hline.
    apply no_LF_app in Hline as [_ Hline].
    rewrite <- (take_drop w rest) in Hline. by apply no_LF_app in Hline as [_ ?]. }
  unfold regexp.meta_pattern, regexp.greedy.
  rewrite (run_app_short _ _ _ Hlt). fold n.
  erewrite longest_first_hit; [reflexivity|lia|].
  rewrite take_app_le, drop_app_le by lia. rewrite Ed. cbn [app].
  rewrite byte_eqb_refl.
  rewrite (run_app_short _ _ _ Hw). fold w.
  erewrite longest_first_hit; [reflexivity|lia|].
  rewrite take_app_le, drop_app_le by lia.
  rewrite run_app, (run_all _ _ Hno), Nat.eqb_refl.
  rewrite (run_line_end is_dot tail) by done. rewrite Nat.add_0_r.
  assert (Hv : (1 <= length (drop w rest))%nat).
  { destruct (drop w rest); [done|simpl; lia]. }
  erewrite longest_first_hit; [reflexivity|exact Hv|].
  rewrite take_app_length.
  assert (Hwhole : take n line ++ ":" ++ take w rest ++ drop w rest = line).
  { rewrite take_drop. symmetry. exact Hsplit. }
  rewrite Hwhole. do 3 f_equal.
  apply (f_equal length) in Hwhole. rewrite !length_app in Hwhole.
  simpl in Hwhole. lia.
Qed.

(** ** Scanning a text of regular lines *)

Lemma find_all_skip (m : regexp.matcher) (xs tail : gostring) :
  no_LF xs ->
  regexp.find_all m (length xs) false (xs ++ tail) = regexp.find_all m 0 false tail.
Proof.
  induction xs as [|c xs IH]; [done|].
  intros [Hc Hxs]%andb_true_iff. cbn.
  unfold is_dot in Hc. apply negb_true_iff in Hc. rewrite Hc. by apply IH.
Qed.

Lemma find_all_pass (m : regexp.matcher) (xs tail : gostring) :
  no_LF xs ->
  regexp.find_all m 0 false (xs ++ tail) = regexp.find_all m 0 false tail.
Proof.
  induction xs as [|c xs IH]; [done|].
  intros [Hc Hxs]%andb_true_iff. cbn.
  unfold is_dot in Hc. apply negb_true_iff in Hc. rewrite Hc. by apply IH.
Qed.

Lemma find_all_line_start (line tail : gostring) :
  no_LF line -> line_end tail -> blank_key_line line = false ->
  regexp.find_all regexp.meta_pattern 0 true (line ++ tail)
  = line_matches line ++ regexp.find_all regexp.meta_pattern 0 false tail.
Proof.
  intros Hline Htail Hblank. unfold line_matches, blank_key_line in *.
  destruct (line_entry line) as [[key value]|] eqn:Ee.
  - assert (Hv : value <> []) by (by destruct value).
    pose proof (meta_pattern_key _ _ _ _ Hline Htail Ee Hv) as Hm.
    destruct line as [|c xs]; [done|].
    apply andb_true_iff in Hline as [Hc Hxs].
    unfold is_dot in Hc. apply negb_true_iff in Hc.
    cbn [app regexp.find_all]. cbn [app] in Hm. rewrite Hm, Hc.
    cbn [length]. rewrite Nat.sub_1_r, Nat.pred_succ.
    by rewrite find_all_skip.
  - pose proof (meta_pattern_no_key _ _ Htail Ee) as Hm.
    destruct line as [|c xs].
    + cbn [app] in *. destruct Htail as [->|[rest ->]]; [done|].
      cbn [regexp.find_all]. rewrite Hm. by rewrite byte_eqb_refl.
    + apply andb_true_iff in Hline as [Hc Hxs].
      unfold is_dot in Hc. apply negb_true_iff in Hc.
      cbn [app regexp.find_all]. cbn [app] in Hm. rewrite Hm, Hc.
      by rewrite find_all_pass.
Qed.

Lemma find_all_lines (lines : list gostring) :
  lines <> [] ->
  Forall no_LF lines ->
  Forall (fun line => blank_key_line line = false) lines ->
  regexp.FindAllSubmatch regexp.meta_pattern (join_lines lines)
  = concat (map line_matches lines).
Proof.
  unfold regexp.FindAllSubmatch.
  induction lines as [|line lines IH]; [done|]. intros _ Hno Hblank.
  apply Forall_cons in Hno as [Hline Hno].
  apply Forall_cons in Hblank as [Hb Hblank].
  destruct lines as [|line' lines].
  - cbn [join_lines map concat].
    rewrite <- (app_nil_r line) at 1.
    rewrite find_all_line_start; [|done|by left|done]. done.
  - change (join_lines (line :: line' :: lines))
      with (line ++ LF :: join_lines (line' :: lines)).
    rewrite find_all_line_start; [|done|right; eauto|done].
    cbn [map concat]. f_equal.
    cbn [regexp.find_all]. rewrite byte_eqb_refl. by apply IH.
Qed.

Lemma split_lines_not_nil (s : gostring) : split_lines s <> [].
Proof.
  destruct s as [|c s]; [done|]. cbn [split_lines].
  destruct (byte_eqb c LF); [done|]. by destruct (split_lines s).
Qed.

Lemma join_lines_push (c : ascii) (l : gostring) (ls : list gostring) :
  join_lines ((c :: l) :: ls) = c :: join_lines (l :: ls).
Proof. by destruct ls. Qed.

Lemma join_split_lines (s : gostring) : join_lines (split_lines s) = s.
Proof.
  induction s as [|c s IH]; [done|]. cbn [split_lines].
  pose proof (split_lines_not_nil s) as Hne.
  destruct (split_lines s) as [|l ls]; [done|].
  destruct (byte_eqb c LF) eqn:Ec.
  - apply byte_eqb_true in Ec as ->.
    change (join_lines ([] :: l :: ls)) with (LF :: join_lines (l :: ls)).
    by rewrite IH.
  - by rewrite join_lines_push, IH.
Qed.

Lemma split_lines_no_LF (s : gostring) : Forall no_LF (split_lines s).
Proof.
  induction s as [|c s IH]; [by repeat constructor|]. cbn [split_lines].
  destruct (byte_eqb c LF) eqn:Ec.
  - by constructor.
  - destruct (split_lines s) as [|l ls]; [repeat constructor|].
    + unfold no_LF, is_dot. simpl. by rewrite Ec.
    + apply Forall_cons in IH as [Hl Hls]. constructor; [|done].
      unfold no_LF, is_dot in *. simpl. by rewrite Ec.
Qed.

Lemma fill_line_matches (lines : list gostring) (m : gmap gostring gostring) :
  fold_left
    (fun m mt => match mt with [_; key; value] => <[key := value]> m | _ => m end)
    (concat (map line_matches lines)) m
  = fold_left
      (fun m line =>
         match line_entry line with
         | Some (key, value) => <[key := value]> m
         | None => m
         end)
      lines m.
Proof.
  revert m. induction lines as [|line lines IH]; intros m; [done|].
  cbn [map concat]. rewrite fold_left_app. cbn [fold_left]. rewrite IH.
  unfold line_matches. by destruct (line_entry line) as [[key value]|].
Qed.

Lemma entriesMap_lookup (lines : list gostring) (key : gostring) :
  entriesMap lines !! key = last_value key lines.
Proof.
  unfold entriesMap, last_value.
  induction lines as [|line lines IH] using rev_ind; [done|].
  rewrite fold_left_app, omap_app. cbn [fold_left]. simpl omap.
  destruct (line_entry line) as [[k v]|].
  - case_bool_decide as Hk.
    + subst k. cbn. by rewrite lookup_insert_eq, last_snoc.
    + cbn. rewrite lookup_insert_ne by done. by rewrite app_nil_r.
  - cbn. by rewrite app_nil_r.
Qed.

(** C4, as the program has it: on a metadata block in which no key line
    has an empty or all-blank remainder, every line that starts with word
    characters followed by a colon gives one entry, its key being what
    precedes the colon and its value the remainder of the line without its
    leading white space (trailing white space stays); the other lines are
    passed over without error, and of several lines with one key the last
    one wins. *)
Theorem metadata_entries_line_by_line (metadata : gostring) :
  Forall (fun line => blank_key_line line = false) (split_lines metadata) ->
  metaDataMap metadata = entriesMap (split_lines metadata) /\
  forall key, metaDataMap metadata !! key = last_value key (split_lines metadata).
Proof.
  intros Hblank.
  assert (H : metaDataMap metadata = entriesMap (split_lines metadata)).
  { unfold metaDataMap, fillMetaDataMap, entriesMap.
    rewrite <- (join_split_lines metadata) at 1.
    rewrite find_all_lines;
      [|apply split_lines_not_nil|apply split_lines_no_LF|exact Hblank].
    apply fill_line_matches. }
  split; [exact H|]. intros key. rewrite H. apply entriesMap_lookup.
Qed.

(** ** The claims on concrete inputs *)

Lemma categories_sorted_by_rank_witness :
  exists sb,
    loadSidebarData (fun md => md) insertionSort map_to_list demoDisk "./markdown"
    = (sb, None) /\
    StronglySorted byOrder (SideBar.Categories sb) /\
    map Category.Name (SideBar.Categories sb)
    ≡ₚ discovered [] (fst (loadMarkdownPosts (fun md => md) demoDisk "./markdown")).
Proof.
  apply (proj1 (categories_sorted_by_rank (fun md => md) insertionSort map_to_list
                  insertionSort_spec map_to_list_spec)).
  by vm_compute.
Defined.

(** The claim C1 fails on the program: with the files a.md (category A,
    rank 5), b.md (B, rank 1) and c.md (C, rank 5), A is discovered before
    C, and yet, for a map visited in the order C, B, A and the insertion
    sort [sort.Slice] runs on short slices, the sidebar is B, C, A. *)
Lemma ties_not_in_discovery_order :
  sort_Slice_spec insertionSort /\
  map_range_spec map_to_list /\
  discovered [] (fst (loadMarkdownPosts (fun md => md) demoDisk "./markdown"))
  = ["A" : gostring; "B" : gostring; "C" : gostring] /\
  map fst (map_to_list
             (groupPosts (fst (loadMarkdownPosts (fun md => md) demoDisk "./markdown"))))
  = ["C" : gostring; "B" : gostring; "A" : gostring] /\
  map (fun c => (Category.Name c, Category.Order c))
      (SideBar.Categories
         (fst (loadSidebarData (fun md => md) insertionSort map_to_list
                 demoDisk "./markdown")))
  = [("B" : gostring, 1); ("C" : gostring, 5); ("A" : gostring, 5)].
Proof.
  split; [exact insertionSort_spec|]. split; [exact map_to_list_spec|].
  by vm_compute.
Qed.

Lemma parse_fails_iff_no_delimiter_and_load_aborts_witness :
  exists err,
    loadMarkdownPosts (fun md => md) brokenDisk "./markdown" = ([], Some err) /\
    (readable brokenDisk "./markdown"
       [DirEntry.mk "a.md" false; DirEntry.mk "bad.md" false] ->
     err = errorString "invalid markdown format").
Proof.
  apply (proj1 (proj2 (proj2 (parse_fails_iff_no_delimiter_and_load_aborts (fun md => md))))).
  - reflexivity.
  - apply Exists_cons_tl, Exists_cons_hd. split; [reflexivity|].
    exists ("Title: X" ++ [LF] ++ "No delimiter here"). split; [reflexivity|].
    apply Index_None. reflexivity.
Defined.

Lemma category_rank_is_first_page_rank_witness :
  exists sb,
    loadSidebarData (fun md => md) insertionSort map_to_list guidesDisk "./markdown"
    = (sb, None) /\
    forall c, c ∈ SideBar.Categories sb ->
      exists p,
        firstPage (Category.Name c)
          (fst (loadMarkdownPosts (fun md => md) guidesDisk "./markdown")) = Some p /\
        Category.Order c = BlogPost.Order p.
Proof.
  apply (proj1 (category_rank_is_first_page_rank (fun md => md) insertionSort map_to_list
                  insertionSort_spec map_to_list_spec)).
  by vm_compute.
Defined.

Lemma metadata_entries_line_by_line_witness :
  metaDataMap ("Title: Hello" ++ [LF] ++ "Order: 5" ++ [LF] ++ "note" ++ [LF] ++ "Title: Bye")
  = entriesMap (split_lines
      ("Title: Hello" ++ [LF] ++ "Order: 5" ++ [LF] ++ "note" ++ [LF] ++ "Title: Bye")) /\
  forall key,
    metaDataMap
      ("Title: Hello" ++ [LF] ++ "Order: 5" ++ [LF] ++ "note" ++ [LF] ++ "Title: Bye") !! key
    = last_value key (split_lines
        ("Title: Hello" ++ [LF] ++ "Order: 5" ++ [LF] ++ "note" ++ [LF] ++ "Title: Bye")).
Proof.
  apply metadata_entries_line_by_line.
  apply (bool_decide_eq_true_1 _). by vm_compute.
Defined.

(** The claim C4 fails on the program.  A key line with nothing after the
    colon takes the whole next line as its value, and that line gives no
    entry of its own; and white space at the end of a value is kept. *)
Lemma metadata_not_line_by_line_trimmed :
  metaDataMap ("Title:" ++ [LF] ++ "Slug: x") !! ("Title" : gostring)
  = Some ("Slug: x" : gostring) /\
  metaDataMap ("Title:" ++ [LF] ++ "Slug: x") !! ("Slug" : gostring) = None /\
  spec_metaDataMap ("Title:" ++ [LF] ++ "Slug: x") !! ("Title" : gostring) = None /\
  spec_metaDataMap ("Title:" ++ [LF] ++ "Slug: x") !! ("Slug" : gostring)
  = Some ("x" : gostring) /\
  metaDataMap "Title: Hello " !! ("Title" : gostring) = Some ("Hello " : gostring) /\
  spec_metaDataMap "Title: Hello " !! ("Title" : gostring) = Some ("Hello" : gostring).
Proof. by vm_compute. Qed.

Lemma parse_blocks_round_trip_witness :
  exists a b post,
    "Title: X" ++ [CR; LF] ++ "---" ++ [CR; LF] ++ "## One" = a ++ "---" ++ b /\
    frontMatterBlocks ("Title: X" ++ [CR; LF] ++ "---" ++ [CR; LF] ++ "## One")
    = Some (stripCR a, stripCR b) /\
    stripCR a ++ "---" ++ stripCR b
    = stripCR ("Title: X" ++ [CR; LF] ++ "---" ++ [CR; LF] ++ "## One") /\
    parseMarkdownFile (fun md => md)
      ("Title: X" ++ [CR; LF] ++ "---" ++ [CR; LF] ++ "## One") = (post, None) /\
    BlogPost.Content post = stripCR b /\
    BlogPost.Headers post = extractHeaders (stripCR b).
Proof.
  apply (parse_blocks_round_trip (fun md => md)).
  exists ("Title: X" ++ [CR; LF]), ([CR; LF] ++ "## One"). reflexivity.
Defined.

Lemma missing_order_defaults_to_9999_witness :
  exists post,
    parseMarkdownFile (fun md => md) ("Parent: A" ++ [LF] ++ "---" ++ [LF] ++ "text")
    = (post, None) /\
    BlogPost.Order post = 9999.
Proof.
  apply (proj1 (proj2 (missing_order_defaults_to_9999 (fun md => md) insertionSort map_to_list
                         insertionSort_spec map_to_list_spec))
           _ ("Parent: A" ++ [LF]) ([LF] ++ "text")).
  - reflexivity.
  - left. reflexivity.
Defined.

(** The claim C6 fails on the program: the post of a.md has no [Order] key,
    the post of b.md has the explicit rank 10000, and the category of the
    first comes before the category of the second. *)
Lemma default_rank_before_larger_rank :
  sort_Slice_spec insertionSort /\
  map_range_spec map_to_list /\
  metaDataMap ("Parent: A" ++ [LF]) !! ("Order" : gostring) = None /\
  metaDataMap ("Parent: B" ++ [LF] ++ "Order: 10000" ++ [LF]) !! ("Order" : gostring)
  = Some ("10000" : gostring) /\
  map (fun c => (Category.Name c, Category.Order c))
      (SideBar.Categories
         (fst (loadSidebarData (fun md => md) insertionSort map_to_list
                 ranksDisk "./markdown")))
  = [("A" : gostring, 9999); ("B" : gostring, 10000)].
Proof.
  split; [exact insertionSort_spec|]. split; [exact map_to_list_spec|].
  by vm_compute.
Qed.

Lemma load_processes_exactly_md_entries_witness :
  loadMarkdownPosts (fun md => md) demoDisk "./markdown"
  = loadFiles (fun md => md) demoDisk "./markdown"
      (List.filter is_md (fst (ReadDir demoDisk "./markdown"))) [] /\
  (forall fs',
      ReadDir fs' "./markdown" = (fst (ReadDir demoDisk "./markdown"), None) ->
      (forall file, file ∈ fst (ReadDir demoDisk "./markdown") -> is_md file = true ->
         ReadFile fs' ("./markdown" ++ "/" ++ DirEntry.Name file)
         = ReadFile demoDisk ("./markdown" ++ "/" ++ DirEntry.Name file)) ->
      loadMarkdownPosts (fun md => md) fs' "./markdown"
      = loadMarkdownPosts (fun md => md) demoDisk "./markdown") /\
  (forall posts,
      loadMarkdownPosts (fun md => md) demoDisk "./markdown" = (posts, None) ->
      Forall2 (parsed_from (fun md => md) demoDisk "./markdown")
        (List.filter is_md (fst (ReadDir demoDisk "./markdown"))) posts).
Proof.
  apply (load_processes_exactly_md_entries (fun md => md) demoDisk "./markdown").
  reflexivity.
Defined.

Lemma links_one_per_heading_witness :
  sanitizeHeaderForID asciiToLower "API Design!" = "api-design" /\
  sanitizeHeaderForID asciiToLower "API Design?" = "api-design" /\
  createSidebarLinks asciiToLower ["API Design!" : gostring; "API Design?" : gostring]
  = "<li><a href=" ++ ["034"%char] ++ "#api-design" ++ ["034"%char]
    ++ ">API Design!</a></li>"
    ++ "<li><a href=" ++ ["034"%char] ++ "#api-design" ++ ["034"%char]
    ++ ">API Design?</a></li>".
Proof. exact (proj2 (links_one_per_heading asciiToLower asciiToLower_spec)). Defined.

Lemma sanitize_idempotent_witness :
  sanitizeHeaderForID asciiToLower (sanitizeHeaderForID asciiToLower "Getting Started: 2nd Part")
  = sanitizeHeaderForID asciiToLower "Getting Started: 2nd Part".
Proof. exact (sanitize_idempotent asciiToLower asciiToLower_spec "Getting Started: 2nd Part"). Defined.

(** * Further properties *)

(** ** The split at the first delimiter *)

Lemma Index_first (s sep : gostring) (m : nat) :
  strings.Index s sep = Some m ->
  strings.HasPrefix (drop m s) sep = true /\
  forall j, (j < m)%nat -> strings.HasPrefix (drop j s) sep = false.
Proof.
  revert m. induction s as [|c s IH]; intros m; cbn [strings.Index].
  - destruct (strings.HasPrefix [] sep) eqn:E; [|done].
    intros [= <-]. split; [done|]. intros j Hj. lia.
  - destruct (strings.HasPrefix (c :: s) sep) eqn:E.
    + intros [= <-]. split; [done|]. intros j Hj. lia.
    + destruct (strings.Index s sep) as [k|] eqn:Ek; [|done].
      simpl. intros [= <-]. destruct (IH k eq_refl) as [Hk Hlt].
      split; [done|]. intros [|j] Hj; [done|]. simpl. apply Hlt. lia.
Qed.

Lemma Index_least (s sep : gostring) (m : nat) :
  strings.HasPrefix (drop m s) sep = true ->
  (forall j, (j < m)%nat -> strings.HasPrefix (drop j s) sep = false) ->
  strings.Index s sep = Some m.
Proof.
  revert m. induction s as [|c s IH]; intros m Hm Hlt; cbn [strings.Index].
  - rewrite drop_nil in Hm. rewrite Hm.
    destruct m as [|m]; [done|]. specialize (Hlt 0%nat ltac:(lia)).
    rewrite drop_nil in Hlt. congruence.
  - destruct m as [|m].
    + rewrite drop_0 in Hm. by rewrite Hm.
    + pose proof (Hlt 0%nat ltac:(lia)) as H0. rewrite drop_0 in H0. rewrite H0.
      rewrite (IH m); [done|done|].
      intros j Hj. apply (Hlt (S j)). lia.
Qed.

Section FirstDelimiter.

Variable mdToHTML : gostring -> gostring.

(** X1: the split is made at the leftmost occurrence of [---]: with [m]
    the least index at which the delimiter starts, the metadata block is
    what precedes index [m] without its carriage returns, the body block is
    everything from index [m+3] on without its carriage returns, later
    delimiters and surplus hyphens included; the fields of the post are
    read from the first block, its content and headings from the second. *)
Theorem split_at_first_delimiter (content : gostring) (m : nat) :
  strings.HasPrefix (drop m content) "---" = true ->
  (forall j, (j < m)%nat -> strings.HasPrefix (drop j content) "---" = false) ->
  frontMatterBlocks content
  = Some (stripCR (take m content), stripCR (drop (m + 3) content)) /\
  exists post,
    parseMarkdownFile mdToHTML content = (post, None) /\
    BlogPost.Content post = mdToHTML (stripCR (drop (m + 3) content)) /\
    BlogPost.Headers post = extractHeaders (stripCR (drop (m + 3) content)) /\
    parseMetaData (stripCR (take m content))
    = (BlogPost.Title post, BlogPost.Slug post, BlogPost.Parent post,
       BlogPost.Description post, BlogPost.Order post,
       BlogPost.MetaDescription post, BlogPost.MetaPropertyTitle post,
       BlogPost.MetaPropertyDescription post, BlogPost.MetaOgURL post).
Proof.
  intros Hm Hlt.
  assert (Hb : frontMatterBlocks content
               = Some (stripCR (take m content), stripCR (drop (m + 3) content))).
  { unfold frontMatterBlocks. cbn [strings.SplitN].
    rewrite (Index_least _ _ _ Hm Hlt). simpl. by rewrite !ReplaceAll_delete. }
  split; [exact Hb|].
  destruct (parseMarkdownFile_Some mdToHTML _ _ _ Hb) as (post & Hp & Hc & Hh & Hmeta).
  exists post. repeat split; done.
Qed.

End FirstDelimiter.

Lemma split_at_first_delimiter_witness :
  frontMatterBlocks ("Title: a-" ++ [CR] ++ "--b---c-----d")
  = Some (stripCR (take 13 ("Title: a-" ++ [CR] ++ "--b---c-----d")),
          stripCR (drop (13 + 3) ("Title: a-" ++ [CR] ++ "--b---c-----d"))) /\
  exists post,
    parseMarkdownFile (fun md => md) ("Title: a-" ++ [CR] ++ "--b---c-----d")
    = (post, None) /\
    BlogPost.Content post
    = stripCR (drop (13 + 3) ("Title: a-" ++ [CR] ++ "--b---c-----d")) /\
    BlogPost.Headers post
    = extractHeaders (stripCR (drop (13 + 3) ("Title: a-" ++ [CR] ++ "--b---c-----d"))) /\
    parseMetaData (stripCR (take 13 ("Title: a-" ++ [CR] ++ "--b---c-----d")))
    = (BlogPost.Title post, BlogPost.Slug post, BlogPost.Parent post,
       BlogPost.Description post, BlogPost.Order post,
       BlogPost.MetaDescription post, BlogPost.MetaPropertyTitle post,
       BlogPost.MetaPropertyDescription post, BlogPost.MetaOgURL post).
Proof.
  apply (split_at_first_delimiter (fun md => md)
           ("Title: a-" ++ [CR] ++ "--b---c-----d") 13).
  - reflexivity.
  - intros j Hj.
    do 13 (destruct j as [|j]; [reflexivity|]). lia.
Defined.

(** ** What the metadata pattern can extract *)

Lemma longest_first_Some {A} (lo n : nat) (k : nat -> option A) (a : A) :
  regexp.longest_first lo n k = Some a ->
  exists m, (lo <= m <= n)%nat /\ k m = Some a.
Proof.
  induction n as [|n IH]; simpl.
  - destruct (Nat.ltb_spec 0 lo); [done|].
    destruct (k 0%nat) eqn:E; [|done]. intros [= <-]. exists 0%nat. split; [lia|done].
  - destruct (Nat.ltb_spec (S n) lo); [done|].
    destruct (k (S n)) eqn:E.
    + intros [= <-]. exists (S n). split; [lia|done].
    + intros Hlf. destruct (IH Hlf) as (m & Hm & Hk). exists m. split; [lia|done].
Qed.

Lemma run_take_le (p : ascii -> bool) (s : gostring) (j : nat) :
  (j <= regexp.run p s)%nat ->
  forallb p (take j s) = true /\ length (take j s) = j.
Proof.
  revert j. induction s as [|c s IH]; intros j; simpl.
  - intros Hj. assert (j = 0%nat) as -> by lia. done.
  - destruct (p c) eqn:E.
    + destruct j as [|j]; [done|]. intros Hj. simpl. rewrite E.
      destruct (IH j ltac:(lia)) as [-> ->]. done.
    + intros Hj. assert (j = 0%nat) as -> by lia. done.
Qed.

(** The shape of every match of the metadata pattern. *)
Lemma meta_pattern_Some (s : gostring) (sub : list gostring) (n : nat) :
  regexp.meta_pattern s = Some (sub, n) ->
  exists key ws value rest,
    sub = [key ++ ":" ++ ws ++ value; key; value] /\
    s = key ++ ":" ++ ws ++ value ++ rest /\
    n = length (key ++ ":" ++ ws ++ value) /\
    key <> [] /\ forallb is_word key = true /\
    forallb is_space ws = true /\
    value <> [] /\ forallb is_dot value = true.
Proof.
  unfold regexp.meta_pattern, regexp.greedy.
  intros (j & Hj & H1)%longest_first_Some.
  destruct (drop j s) as [|c r2] eqn:Ed; [done|].
  destruct (byte_eqb c ":") eqn:Ec; [|done]. apply byte_eqb_true in Ec as ->.
  apply longest_first_Some in H1 as (w & Hw & H2).
  apply longest_first_Some in H2 as (i & Hi & H3).
  injection H3 as <- <-.
  destruct (run_take_le is_word s j ltac:(lia)) as [Hkey Hkl].
  destruct (run_take_le is_space r2 w ltac:(lia)) as [Hws Hwl].
  destruct (run_take_le is_dot (drop w r2) i ltac:(lia)) as [Hval Hvl].
  exists (take j s), (take w r2), (take i (drop w r2)), (drop i (drop w r2)).
  repeat split; try done.
  - rewrite take_drop.
    change (":" ++ take w r2 ++ drop w r2) with (":"%char :: (take w r2 ++ drop w r2)).
    by rewrite take_drop, <- Ed, take_drop.
  - rewrite !length_app. simpl. lia.
  - intros E. rewrite E in Hkl. simpl in Hkl. lia.
  - intros E. rewrite E in Hvl. simpl in Hvl. lia.
Qed.

(** A position at the start of a line: the start of the text, or right
    after a line feed. *)
Lemma find_all_elem (m : regexp.matcher) (skip : nat) (bol : bool)
    (s : gostring) (sub : list gostring) :
  sub ∈ regexp.find_all m skip bol s ->
  exists pre suffix n,
    s = pre ++ suffix /\ m suffix = Some (sub, n) /\
    ((pre = [] /\ bol = true) \/ exists pre', pre = pre' ++ [LF]).
Proof.
  revert skip bol. induction s as [|c s IH]; intros skip bol; cbn [regexp.find_all].
  - by intros ?%elem_of_nil.
  - assert (Hrec : forall k, sub ∈ regexp.find_all m k (byte_eqb c LF) s ->
               exists pre suffix n,
                 c :: s = pre ++ suffix /\ m suffix = Some (sub, n) /\
                 ((pre = [] /\ bol = true) \/ exists pre', pre = pre' ++ [LF])).
    { intros k (pre & suffix & n & -> & Hm & Hpre)%IH.
      exists (c :: pre), suffix, n. split; [done|]. split; [done|]. right.
      destruct Hpre as [[-> Hc]|[pre' ->]].
      - apply byte_eqb_true in Hc as ->. by exists [].
      - by exists (c :: pre'). }
    destruct skip as [|k]; [|apply Hrec].
    destruct bol; [|apply Hrec].
    destruct (m (c :: s)) as [[sub' n]|] eqn:Em; [|apply Hrec].
    intros [->|Hin]%elem_of_cons; [|by eapply Hrec].
    exists [], (c :: s), n. split; [done|]. split; [done|]. by left.
Qed.

Lemma fillMetaDataMap_entries (P : gostring -> gostring -> Prop)
    (matches : list (list gostring)) (key value : gostring) :
  (forall w k v, [w; k; v] ∈ matches -> P k v) ->
  fillMetaDataMap matches !! key = Some value -> P key value.
Proof.
  unfold fillMetaDataMap.
  induction matches as [|mt matches IH] using rev_ind; intros HP.
  - simpl. by rewrite lookup_empty.
  - rewrite fold_left_app. cbn [fold_left].
    assert (HP' : forall w k v, [w; k; v] ∈ matches -> P k v).
    { intros w k v Hin. apply (HP w k v). apply elem_of_app. by left. }
    specialize (IH HP').
    destruct mt as [|w [|k [|v [|? ?]]]]; try exact IH.
    destruct (decide (k = key)) as [->|Hne].
    + rewrite lookup_insert_eq. intros [= <-]. apply (HP w key v).
      apply elem_of_app. right. by apply list_elem_of_singleton.
    + by rewrite lookup_insert_ne.
Qed.

Lemma metaDataMap_entry_shape (metadata key value : gostring) :
  metaDataMap metadata !! key = Some value ->
  key <> [] /\ forallb is_word key = true /\
  value <> [] /\ (LF ∉ value) /\
  exists before ws after,
    metadata = before ++ key ++ ":" ++ ws ++ value ++ after /\
    (before = [] \/ exists b, before = b ++ [LF]) /\
    forallb is_space ws = true.
Proof.
  unfold metaDataMap.
  apply (fillMetaDataMap_entries
           (fun key value =>
              key <> [] /\ forallb is_word key = true /\
              value <> [] /\ (LF ∉ value) /\
              exists before ws after,
                metadata = before ++ key ++ ":" ++ ws ++ value ++ after /\
                (before = [] \/ exists b, before = b ++ [LF]) /\
                forallb is_space ws = true)).
  intros w k v (pre & suffix & n & -> & Hm & Hpre)%find_all_elem.
  apply meta_pattern_Some in Hm
    as (k' & ws & v' & rest & [= _ <- <-] & -> & _ & Hk & Hkw & Hws & Hv & Hvd).
  repeat split; try done.
  - intros Hin. rewrite forallb_forall in Hvd.
    apply list_elem_of_In, Hvd in Hin. done.
  - exists pre, ws, rest. split; [done|]. split; [|done].
    destruct Hpre as [[-> _]|?]; [by left|by right].
Qed.

(** X2: every entry of the metadata map comes from one place of the
    block where the key, made of word characters only, stands at the start
    of a line and is followed by a colon, white space and the value; the
    value is never empty and never contains a line feed. *)
Theorem metadata_entries_wellformed (metadata key value : gostring) :
  metaDataMap metadata !! key = Some value ->
  key <> [] /\ forallb is_word key = true /\
  value <> [] /\ (LF ∉ value) /\
  exists before ws after,
    metadata = before ++ key ++ ":" ++ ws ++ value ++ after /\
    (before = [] \/ exists b, before = b ++ [LF]) /\
    forallb is_space ws = true.
Proof. apply metaDataMap_entry_shape. Qed.

Lemma metadata_entries_wellformed_witness :
  ("Title" : gostring) <> [] /\ forallb is_word "Title" = true /\
  ("My post" : gostring) <> [] /\ (LF ∉ ("My post" : gostring)) /\
  exists before ws after,
    "Slug: s" ++ [LF] ++ "Title:  My post" ++ [LF] ++ "x"
    = before ++ "Title" ++ ":" ++ ws ++ "My post" ++ after /\
    (before = [] \/ exists b, before = b ++ [LF]) /\
    forallb is_space ws = true.
Proof.
  apply (metadata_entries_wellformed
           ("Slug: s" ++ [LF] ++ "Title:  My post" ++ [LF] ++ "x")).
  reflexivity.
Defined.

(** ** The fields of a parsed post *)

Lemma stripCR_no_CR (s : gostring) : CR ∉ stripCR s.
Proof.
  unfold stripCR. intros Hin. apply list_elem_of_In, List.filter_In in Hin as [_ Hc].
  by rewrite byte_eqb_refl in Hc.
Qed.

Lemma map_get_single_line (metadata key : gostring) :
  CR ∉ metadata ->
  (CR ∉ map_get (metaDataMap metadata) key) /\ (LF ∉ map_get (metaDataMap metadata) key).
Proof.
  intros Hcr. unfold map_get.
  destruct (metaDataMap metadata !! key) as [v|] eqn:E; simpl.
  - apply metaDataMap_entry_shape in E
      as (_ & _ & _ & Hlf & before & ws & after & Hm & _).
    split; [|done]. intros Hin. apply Hcr. rewrite Hm.
    rewrite !elem_of_app. tauto.
  - split; by intros ?%elem_of_nil.
Qed.

(** The shape of every match of the headings pattern. *)
Lemma header_pattern_Some (s : gostring) (sub : list gostring) (n : nat) :
  regexp.header_pattern s = Some (sub, n) ->
  exists ws text rest,
    sub = ["##" ++ ws ++ text; text] /\
    s = "##" ++ ws ++ text ++ rest /\
    ws <> [] /\ forallb is_space ws = true /\
    forallb is_dot text = true.
Proof.
  unfold regexp.header_pattern, regexp.greedy.
  destruct s as [|c1 [|c2 r1]]; [done..|].
  destruct (byte_eqb c1 "#") eqn:E1; [|done].
  destruct (byte_eqb c2 "#") eqn:E2; [|done]. simpl.
  apply byte_eqb_true in E1 as ->. apply byte_eqb_true in E2 as ->.
  intros (w & Hw & H1)%longest_first_Some.
  apply longest_first_Some in H1 as (i & Hi & H2).
  injection H2 as <- <-.
  destruct (run_take_le is_space r1 w ltac:(lia)) as [Hws Hwl].
  destruct (run_take_le is_dot (drop w r1) i ltac:(lia)) as [Htx _].
  exists (take w r1), (take i (drop w r1)), (drop i (drop w r1)).
  repeat split; try done.
  - by rewrite !take_drop.
  - intros E. rewrite E in Hwl. simpl in Hwl. lia.
Qed.

Lemma extractHeaders_map (content : gostring) :
  extractHeaders content
  = map (fun mt => nth 1 mt [])
        (regexp.FindAllSubmatch regexp.header_pattern content).
Proof.
  unfold extractHeaders.
  generalize (regexp.FindAllSubmatch regexp.header_pattern content). intros l.
  assert (H : forall acc : list gostring,
             fold_left (fun headers mt => headers ++ [nth 1 mt []]) l acc
             = acc ++ map (fun mt => nth 1 mt []) l).
  { induction l as [|mt l IH]; intros acc; simpl.
    - by rewrite app_nil_r.
    - by rewrite IH, <- app_assoc. }
  by rewrite H.
Qed.

Lemma extractHeaders_shape (content header : gostring) :
  header ∈ extractHeaders content ->
  (LF ∉ header) /\
  exists before ws after,
    content = before ++ "##" ++ ws ++ header ++ after /\
    (before = [] \/ exists b, before = b ++ [LF]) /\
    ws <> [] /\ forallb is_space ws = true.
Proof.
  rewrite extractHeaders_map, list_elem_of_In, in_map_iff.
  intros (mt & <- & Hin). apply list_elem_of_In in Hin.
  apply find_all_elem in Hin as (pre & suffix & n & -> & Hm & Hpre).
  apply header_pattern_Some in Hm as (ws & text & rest & -> & -> & Hw & Hws & Htx).
  cbn [nth]. split.
  - intros Hin. rewrite forallb_forall in Htx.
    apply list_elem_of_In, Htx in Hin. done.
  - exists pre, ws, rest. split; [done|]. split; [|done].
    destruct Hpre as [[-> _]|?]; [by left|by right].
Qed.

(** X6: every heading [extractHeaders] returns comes from one place of
    the body where two hashes stand at the start of a line, followed by at
    least one white-space character and then the heading; a heading never
    contains a line feed. *)
Theorem headers_come_from_heading_lines (content header : gostring) :
  header ∈ extractHeaders content ->
  (LF ∉ header) /\
  exists before ws after,
    content = before ++ "##" ++ ws ++ header ++ after /\
    (before = [] \/ exists b, before = b ++ [LF]) /\
    ws <> [] /\ forallb is_space ws = true.
Proof. apply extractHeaders_shape. Qed.

Lemma headers_come_from_heading_lines_witness :
  (LF ∉ ("Two" : gostring)) /\
  exists before ws after,
    "## One" ++ [LF] ++ "text" ++ [LF] ++ "##  Two" ++ [LF]
    = before ++ "##" ++ ws ++ "Two" ++ after /\
    (before = [] \/ exists b, before = b ++ [LF]) /\
    ws <> [] /\ forallb is_space ws = true.
Proof.
  apply (headers_come_from_heading_lines
           ("## One" ++ [LF] ++ "text" ++ [LF] ++ "##  Two" ++ [LF])).
  apply (bool_decide_eq_true_1 _). by vm_compute.
Defined.

Lemma Atoi_numeral (v : gostring) (n : Z) :
  strconv.Atoi v = Some n ->
  is_numeral v = true /\ strconv.min_int <= n <= strconv.max_int.
Proof.
  assert (Hd : forall s acc k, strconv.digits acc s = Some k -> forallb is_digit s = true).
  { induction s as [|c s IH]; intros acc k; simpl; [done|].
    destruct (is_digit c); [|done]. intros H. simpl. by eapply IH. }
  assert (Hr : forall ds (neg : bool),
             (k ← strconv.digits 0 ds;
              let v := if neg then - k else k in
              if ((strconv.min_int <=? v) && (v <=? strconv.max_int))%bool
              then Some v else None) = Some n ->
             forallb is_digit ds = true /\ strconv.min_int <= n <= strconv.max_int).
  { intros ds neg H. destruct (strconv.digits 0 ds) as [k|] eqn:E; [|done].
    simpl in H. split; [by eapply Hd|].
    destruct ((strconv.min_int <=? (if neg then - k else k))
              && ((if neg then - k else k) <=? strconv.max_int))%bool eqn:Eb; [|done].
    injection H as <-. apply andb_true_iff in Eb as [?%Z.leb_le ?%Z.leb_le]. lia. }
  unfold strconv.Atoi, is_numeral. destruct v as [|c s]; [done|].
  destruct (byte_eqb c "-") eqn:E1; simpl.
  - destruct s as [|d s]; [done|]. intros H.
    by apply (Hr (d :: s) true) in H as [Hf Hn].
  - destruct (byte_eqb c "+") eqn:E2; simpl.
    + destruct s as [|d s]; [done|]. intros H.
      by apply (Hr (d :: s) false) in H as [Hf Hn].
    + intros H. by apply (Hr (c :: s) false) in H as [Hf Hn].
Qed.

Section Fields.

Variable mdToHTML : gostring -> gostring.

Lemma parseMarkdownFile_inv (content : gostring) (post : BlogPost.t) :
  parseMarkdownFile mdToHTML content = (post, None) ->
  exists a b,
    content = a ++ "---" ++ b /\
    BlogPost.Content post = mdToHTML (stripCR b) /\
    BlogPost.Headers post = extractHeaders (stripCR b) /\
    parseMetaData (stripCR a)
    = (BlogPost.Title post, BlogPost.Slug post, BlogPost.Parent post,
       BlogPost.Description post, BlogPost.Order post,
       BlogPost.MetaDescription post, BlogPost.MetaPropertyTitle post,
       BlogPost.MetaPropertyDescription post, BlogPost.MetaOgURL post).
Proof.
  intros Hp.
  assert (Hd : has_delimiter content).
  { apply (parseMarkdownFile_ok_iff mdToHTML). by rewrite Hp. }
  apply frontMatterBlocks_Some in Hd as (a & b & Hc & Hb).
  destruct (parseMarkdownFile_Some mdToHTML _ _ _ Hb) as (post' & Hp' & H1 & H2 & H3).
  rewrite Hp in Hp'. injection Hp' as <-. by exists a, b.
Qed.

(** X3: in a post that [parseMarkdownFile] returns, no field taken from
    the metadata (title, slug, parent, description and the four meta
    fields) and no heading contains a carriage return or a line feed. *)
Theorem parsed_fields_single_line (content : gostring) (post : BlogPost.t) :
  parseMarkdownFile mdToHTML content = (post, None) ->
  Forall (fun field => (CR ∉ field) /\ (LF ∉ field))
         (metaFields post ++ BlogPost.Headers post).
Proof.
  intros (a & b & _ & _ & Hh & Hm)%parseMarkdownFile_inv.
  apply Forall_app. split.
  - unfold parseMetaData in Hm. cbv zeta in Hm. unfold metaFields.
    pose proof (fun key => map_get_single_line (stripCR a) key (stripCR_no_CR a)) as Hclean.
    injection Hm as <- <- <- <- _ <- <- <- <-.
    repeat (constructor; [apply Hclean|]). constructor.
  - rewrite Hh. apply Forall_forall. intros h Hin.
    apply extractHeaders_shape in Hin as (Hlf & before & ws & after & Hb & _).
    split; [|done]. intros Hcr. apply (stripCR_no_CR b). rewrite Hb.
    rewrite !elem_of_app. tauto.
Qed.

(** X4: the rank of a post is the [Order] value only when that value is
    an optional sign followed by decimal digits and nothing else (no white
    space, no decimal point): any other value gives the rank 9999; and
    the rank of every parsed post is in the range of a 64-bit integer. *)
Theorem order_needs_plain_numeral :
  (forall content metadata mdContent v,
      frontMatterBlocks content = Some (metadata, mdContent) ->
      metaDataMap metadata !! ("Order" : gostring) = Some v ->
      is_numeral v = false ->
      exists post,
        parseMarkdownFile mdToHTML content = (post, None) /\
        BlogPost.Order post = 9999) /\
  (forall content post,
      parseMarkdownFile mdToHTML content = (post, None) ->
      strconv.min_int <= BlogPost.Order post <= strconv.max_int).
Proof.
  split.
  - intros content metadata mdContent v Hb Hv Hn.
    destruct (parseMarkdownFile_Some mdToHTML _ _ _ Hb) as (post & Hp & _ & _ & Hm).
    exists post. split; [exact Hp|].
    assert (Hu : order_unusable metadata).
    { right. exists v. split; [exact Hv|].
      destruct (strconv.Atoi v) as [n|] eqn:E; [|done].
      apply Atoi_numeral in E as [E _]. congruence. }
    destruct (parseMetaData_order _ Hu) as (? & ? & ? & ? & ? & ? & ? & ? & Hm').
    rewrite Hm in Hm'. by simplify_eq.
  - intros content post (a & b & _ & _ & _ & Hm)%parseMarkdownFile_inv.
    unfold parseMetaData in Hm. cbv zeta in Hm.
    injection Hm as _ _ _ _ <- _ _ _ _.
    destruct (strconv.Atoi _) as [n|] eqn:E.
    + by apply Atoi_numeral in E as [_ ?].
    + by vm_compute.
Qed.

End Fields.

Lemma parsed_fields_single_line_witness :
  Forall (fun field => (CR ∉ field) /\ (LF ∉ field))
    (metaFields (fst (parseMarkdownFile (fun md => md)
        ("Title: A post" ++ [CR; LF] ++ "---" ++ [CR; LF] ++ "## One" ++ [CR; LF])))
     ++ BlogPost.Headers (fst (parseMarkdownFile (fun md => md)
        ("Title: A post" ++ [CR; LF] ++ "---" ++ [CR; LF] ++ "## One" ++ [CR; LF])))).
Proof.
  apply (parsed_fields_single_line (fun md => md)
           ("Title: A post" ++ [CR; LF] ++ "---" ++ [CR; LF] ++ "## One" ++ [CR; LF])).
  reflexivity.
Defined.

Lemma order_needs_plain_numeral_witness :
  exists post,
    parseMarkdownFile (fun md => md) ("Order: 5 " ++ [LF] ++ "---" ++ [LF]) = (post, None) /\
    BlogPost.Order post = 9999.
Proof.
  apply (proj1 (order_needs_plain_numeral (fun md => md))
           _ ("Order: 5 " ++ [LF]) [LF] "5 ").
  - reflexivity.
  - reflexivity.
  - reflexivity.
Defined.

(** ** Headings, line by line *)

Lemma find_all_line_gen (m : regexp.matcher) (f : gostring -> list (list gostring))
    (line tail : gostring) :
  no_LF line -> line_end tail ->
  (m (line ++ tail) = None /\ f line = []) \/
  (exists sub, m (line ++ tail) = Some (sub, length line) /\ line <> [] /\ f line = [sub]) ->
  regexp.find_all m 0 true (line ++ tail)
  = f line ++ regexp.find_all m 0 false tail.
Proof.
  intros Hline Htail [[Hm Hf]|(sub & Hm & Hne & Hf)]; rewrite Hf.
  - destruct line as [|c xs].
    + cbn [app] in *. destruct Htail as [->|[rest ->]]; [done|].
      cbn [regexp.find_all]. by rewrite Hm.
    + apply andb_true_iff in Hline as [Hc Hxs].
      unfold is_dot in Hc. apply negb_true_iff in Hc.
      cbn [app regexp.find_all]. cbn [app] in Hm. rewrite Hm, Hc.
      by rewrite find_all_pass.
  - destruct line as [|c xs]; [done|].
    apply andb_true_iff in Hline as [Hc Hxs].
    unfold is_dot in Hc. apply negb_true_iff in Hc.
    cbn [app regexp.find_all]. cbn [app] in Hm. rewrite Hm, Hc.
    cbn [length]. rewrite Nat.sub_1_r, Nat.pred_succ.
    by rewrite find_all_skip.
Qed.

Lemma find_all_lines_gen (m : regexp.matcher) (f : gostring -> list (list gostring))
    (good : gostring -> Prop) :
  (forall line tail, no_LF line -> line_end tail -> good line ->
     (m (line ++ tail) = None /\ f line = []) \/
     (exists sub, m (line ++ tail) = Some (sub, length line) /\ line <> [] /\ f line = [sub])) ->
  forall lines,
    lines <> [] -> Forall no_LF lines -> Forall good lines ->
    regexp.FindAllSubmatch m (join_lines lines) = concat (map f lines).
Proof.
  intros Hcases. unfold regexp.FindAllSubmatch.
  induction lines as [|line lines IH]; [done|]. intros _ Hno Hgood.
  apply Forall_cons in Hno as [Hline Hno].
  apply Forall_cons in Hgood as [Hg Hgood].
  destruct lines as [|line' lines].
  - cbn [join_lines map concat].
    rewrite <- (app_nil_r line) at 1.
    rewrite (find_all_line_gen m f); [done|done|by left|].
    apply Hcases; [done|by left|done].
  - change (join_lines (line :: line' :: lines))
      with (line ++ LF :: join_lines (line' :: lines)).
    rewrite (find_all_line_gen m f); [|done|right; eauto|].
    + cbn [map concat]. f_equal.
      cbn [regexp.find_all]. rewrite byte_eqb_refl. by apply IH.
    + apply Hcases; [done|right; eauto|done].
Qed.

Lemma run_not_all (p : ascii -> bool) (s : gostring) :
  forallb p s = false -> (regexp.run p s < length s)%nat.
Proof.
  induction s as [|c s IH]; simpl; [done|].
  destruct (p c); simpl; [|lia]. intros H. apply IH in H. lia.
Qed.

(** The matches a line gives to the headings pattern, line by line. *)
Lemma header_pattern_line (line tail : gostring) :
  no_LF line -> line_end tail -> blank_heading_line line = false ->
  (regexp.header_pattern (line ++ tail) = None /\
   match heading_entry line with Some text => [[line; text]] | None => [] end = []) \/
  (exists sub,
      regexp.header_pattern (line ++ tail) = Some (sub, length line) /\
      line <> [] /\
      match heading_entry line with Some text => [[line; text]] | None => [] end = [sub]).
Proof.
  intros Hline Htail Hblank.
  destruct line as [|c1 [|c2 rest]].
  - left. split; [|done]. destruct Htail as [->|[r ->]]; [done|].
    destruct r; reflexivity.
  - left. split; [|done]. destruct Htail as [->|[r ->]]; [done|].
    cbn. by rewrite andb_false_r.
  - cbn [app regexp.header_pattern heading_entry blank_heading_line] in *.
    destruct (byte_eqb c1 "#" && byte_eqb c2 "#")%bool eqn:Eh; [|by left].
    cbn [andb] in *.
    pose proof (run_not_all _ _ Hblank) as Hw.
    apply andb_true_iff in Hline as [_ Hline].
    apply andb_true_iff in Hline as [_ Hrest]. fold (forallb is_dot rest) in Hrest.
    unfold regexp.greedy. rewrite (run_app_short _ _ _ Hw).
    set (w := regexp.run is_space rest) in *.
    destruct (Nat.eqb_spec w 0) as [Hw0|Hw0]; cbn [negb].
    + left. split; [|done]. rewrite Hw0. reflexivity.
    + right. eexists. split; [|split; [done|reflexivity]].
      erewrite longest_first_hit; [|lia|].
      2:{ rewrite take_app_le, drop_app_le by lia.
          assert (Hno : no_LF (drop w rest)).
          { rewrite <- (take_drop w rest) in Hrest.
            by apply no_LF_app in Hrest as [_ ?]. }
          rewrite run_app, (run_all _ _ Hno), Nat.eqb_refl.
          rewrite (run_line_end is_dot tail) by done. rewrite Nat.add_0_r.
          erewrite longest_first_hit; [reflexivity|lia|].
          rewrite take_app_length. reflexivity. }
      apply andb_true_iff in Eh as [->%byte_eqb_true ->%byte_eqb_true].
      unfold trim_left. fold w. f_equal. f_equal.
      * f_equal. cbn. by rewrite take_drop.
      * cbn [length]. rewrite <- (take_drop w rest) at 3.
        rewrite length_app, length_take. lia.
Qed.

Lemma headings_of_matches (lines : list gostring) :
  map (fun mt => nth 1 mt [])
      (concat (map (fun line =>
                      match heading_entry line with
                      | Some text => [[line; text]]
                      | None => []
                      end) lines))
  = omap heading_entry lines.
Proof.
  induction lines as [|line lines IH]; [done|].
  cbn [map concat]. rewrite map_app, IH. simpl omap.
  by destruct (heading_entry line).
Qed.

(** X5: on a body in which no line consists of two hashes followed by
    nothing but white space, [extractHeaders] works line by line: a line
    gives a heading exactly when it starts with two hashes and at least one
    white-space character, the heading being the rest of the line without
    its leading white space; a line with three hashes, or with text right
    after the two hashes, gives none. *)
Theorem headings_line_by_line (body : gostring) :
  Forall (fun line => blank_heading_line line = false) (split_lines body) ->
  extractHeaders body = omap heading_entry (split_lines body).
Proof.
  intros Hblank. rewrite extractHeaders_map.
  rewrite <- (join_split_lines body) at 1.
  rewrite (find_all_lines_gen regexp.header_pattern
             (fun line => match heading_entry line with
                          | Some text => [[line; text]]
                          | None => []
                          end)
             (fun line => blank_heading_line line = false)).
  - apply headings_of_matches.
  - intros line tail. apply header_pattern_line.
  - apply split_lines_not_nil.
  - apply split_lines_no_LF.
  - exact Hblank.
Qed.

Lemma headings_line_by_line_witness :
  extractHeaders ("## One" ++ [LF] ++ "### deeper" ++ [LF] ++ "##Two" ++ [LF] ++ "##  Three ")
  = omap heading_entry
      (split_lines ("## One" ++ [LF] ++ "### deeper" ++ [LF] ++ "##Two" ++ [LF] ++ "##  Three ")).
Proof.
  apply headings_line_by_line.
  apply (bool_decide_eq_true_1 _). by vm_compute.
Defined.

(** ** Loading: success and the first failure *)

Section Loading.

Variable mdToHTML : gostring -> gostring.

Lemma loadFiles_past_loadable fs dir pre :
  Forall (loadable fs dir) pre ->
  exists new,
    forall rest posts,
      loadFiles mdToHTML fs dir (pre ++ rest) posts
      = loadFiles mdToHTML fs dir rest (posts ++ new).
Proof.
  induction 1 as [|file pre Hfile Hpre (new & IH)].
  - exists []. intros rest posts. by rewrite app_nil_r.
  - destruct (is_md file) eqn:Emd.
    + destruct (Hfile Emd) as (content & Hr & Hd).
      apply (parseMarkdownFile_ok_iff mdToHTML) in Hd.
      destruct (parseMarkdownFile mdToHTML content) as [post oe] eqn:Ep.
      simpl in Hd. subst oe.
      exists (post :: new). intros rest posts.
      cbn [app loadFiles]. fold (is_md file). rewrite Emd, Hr, Ep, IH.
      by rewrite <- app_assoc.
    + exists new. intros rest posts.
      cbn [app loadFiles]. fold (is_md file). by rewrite Emd, IH.
Qed.

Lemma loadFiles_ok_loadable fs dir files posts result :
  loadFiles mdToHTML fs dir files posts = (result, None) ->
  Forall (loadable fs dir) files.
Proof.
  revert posts. induction files as [|file files IH]; intros posts; [by constructor|].
  cbn [loadFiles]. fold (is_md file). destruct (is_md file) eqn:Emd.
  - destruct (ReadFile fs _) as [content [e|]] eqn:Er; [done|].
    destruct (parseMarkdownFile mdToHTML content) as [post [e|]] eqn:Ep; [done|].
    intros H. constructor; [|by eapply IH].
    intros _. exists content. split; [done|].
    apply (parseMarkdownFile_ok_iff mdToHTML). by rewrite Ep.
  - intros H. constructor; [|by eapply IH]. intros ?. congruence.
Qed.

(** X7: [loadMarkdownPosts] succeeds exactly when the directory can be
    listed and every entry whose name ends in [.md] can be read and
    contains the delimiter. *)
Theorem load_succeeds_iff (fs : FileSystem) (dir : gostring) :
  (exists posts, loadMarkdownPosts mdToHTML fs dir = (posts, None)) <->
  (exists files, ReadDir fs dir = (files, None) /\ Forall (loadable fs dir) files).
Proof.
  unfold loadMarkdownPosts. split.
  - intros [posts H]. destruct (ReadDir fs dir) as [files [e|]]; [done|].
    exists files. split; [done|]. by eapply loadFiles_ok_loadable.
  - intros (files & -> & Hall).
    destruct (loadFiles_past_loadable fs dir files Hall) as (new & Hnew).
    exists ([] ++ new). specialize (Hnew [] []). by rewrite app_nil_r in Hnew.
Qed.

(** X8: the load stops at the first content file that fails: when the
    [.md] entries before it are readable and well formed, a read error of
    that file is the error of the whole load, and a missing delimiter gives
    "invalid markdown format", whatever the entries after it are. *)
Theorem first_failure_decides (fs : FileSystem) (dir : gostring)
    (pre : list DirEntry.t) (file : DirEntry.t) (rest : list DirEntry.t) :
  ReadDir fs dir = (pre ++ file :: rest, None) ->
  Forall (loadable fs dir) pre ->
  is_md file = true ->
  (forall content err,
      ReadFile fs (dir ++ "/" ++ DirEntry.Name file) = (content, Some err) ->
      loadMarkdownPosts mdToHTML fs dir = ([], Some err)) /\
  (forall content,
      ReadFile fs (dir ++ "/" ++ DirEntry.Name file) = (content, None) ->
      ~ has_delimiter content ->
      loadMarkdownPosts mdToHTML fs dir
      = ([], Some (errorString "invalid markdown format"))).
Proof.
  intros Hdir Hpre Hmd. unfold loadMarkdownPosts. rewrite Hdir.
  destruct (loadFiles_past_loadable fs dir pre Hpre) as (new & ->).
  cbn [loadFiles]. fold (is_md file). rewrite Hmd. split.
  - intros content err ->. done.
  - intros content -> Hd.
    apply frontMatterBlocks_None in Hd.
    by rewrite (parseMarkdownFile_None mdToHTML _ Hd).
Qed.

End Loading.

Lemma first_failure_decides_witness :
  (forall content err,
      ReadFile brokenDisk ("./markdown" ++ "/" ++ DirEntry.Name (DirEntry.mk "bad.md" false))
      = (content, Some err) ->
      loadMarkdownPosts (fun md => md) brokenDisk "./markdown" = ([], Some err)) /\
  (forall content,
      ReadFile brokenDisk ("./markdown" ++ "/" ++ DirEntry.Name (DirEntry.mk "bad.md" false))
      = (content, None) ->
      ~ has_delimiter content ->
      loadMarkdownPosts (fun md => md) brokenDisk "./markdown"
      = ([], Some (errorString "invalid markdown format"))).
Proof.
  apply (first_failure_decides (fun md => md) brokenDisk "./markdown"
           [DirEntry.mk "a.md" false] (DirEntry.mk "bad.md" false) []).
  - reflexivity.
  - constructor; [|constructor]. intros _.
    exists ("Title: A" ++ [LF] ++ "---" ++ [LF] ++ "text"). split; [reflexivity|].
    by exists ("Title: A" ++ [LF]), ([LF] ++ "text").
  - reflexivity.
Defined.

(** ** The categories of the sidebar *)

Lemma categoryOf_pages posts name c :
  categoryOf posts name = Some c ->
  name <> [] /\ Category.Name c = name /\
  Category.Pages c = List.filter (fun p => bool_decide (BlogPost.Parent p = name)) posts /\
  Category.Pages c <> [].
Proof.
  unfold categoryOf. case_bool_decide as Hn; [done|].
  destruct (List.filter _ posts) as [|p ps]; [done|].
  by intros [= <-].
Qed.

Lemma NoDup_map_inj {A B} (f : A -> B) (l : list A) (x y : A) :
  NoDup (map f l) -> x ∈ l -> y ∈ l -> f x = f y -> x = y.
Proof.
  induction l as [|a l IH]; simpl; [by intros _ ?%elem_of_nil|].
  intros [Ha Hl]%NoDup_cons [->|Hx]%elem_of_cons [->|Hy]%elem_of_cons Hf; try done.
  - destruct Ha. rewrite Hf. apply list_elem_of_In, in_map. by apply list_elem_of_In.
  - destruct Ha. rewrite <- Hf. apply list_elem_of_In, in_map. by apply list_elem_of_In.
  - by apply IH.
Qed.

Lemma SideBar_eq (a b : SideBar.t) :
  SideBar.Categories a = SideBar.Categories b -> a = b.
Proof. destruct a, b. simpl. by intros ->. Qed.

Section Categories.

Variable sort_Slice :
  (Category.t -> Category.t -> bool) -> list Category.t -> list Category.t.
Variable map_range :
  gmap gostring Category.t -> list (gostring * Category.t).
Hypothesis sort_ok : sort_Slice_spec sort_Slice.
Hypothesis range_ok : map_range_spec map_range.

(** X9: the pages of every category of the sidebar are exactly the posts
    that name the category, in the order of the corpus; a category is
    never empty and never has the empty name. *)
Theorem category_pages_are_its_posts (posts : list BlogPost.t) (c : Category.t) :
  c ∈ SideBar.Categories (sidebarOf sort_Slice map_range posts) ->
  Category.Name c <> [] /\
  Category.Pages c
  = List.filter (fun p => bool_decide (BlogPost.Parent p = Category.Name c)) posts /\
  Category.Pages c <> [].
Proof.
  intros (name & Hc)%(in_sidebar sort_Slice map_range sort_ok range_ok).
  apply categoryOf_pages in Hc as (Hn & <- & Hp & Hne). done.
Qed.

(** X10: the names of the categories of the sidebar are pairwise
    distinct; every post with a non-empty parent is a page of the category
    of that name; and the sidebar has no category exactly when every post
    has the empty parent. *)
Theorem categories_partition_the_posts (posts : list BlogPost.t) :
  NoDup (map Category.Name (SideBar.Categories (sidebarOf sort_Slice map_range posts))) /\
  (forall p, p ∈ posts -> BlogPost.Parent p <> [] ->
     exists c, c ∈ SideBar.Categories (sidebarOf sort_Slice map_range posts) /\
               Category.Name c = BlogPost.Parent p /\
               p ∈ Category.Pages c) /\
  (SideBar.Categories (sidebarOf sort_Slice map_range posts) = [] <->
   Forall (fun p => BlogPost.Parent p = []) posts).
Proof.
  pose proof (sidebar_names sort_Slice map_range sort_ok range_ok posts) as Hnames.
  split; [|split].
  - rewrite Hnames. apply discovered_NoDup.
  - intros p Hp Hpar.
    destruct (proj2 (categoryOf_is_Some posts (BlogPost.Parent p))) as [c Hc].
    { split; [done|]. by exists p. }
    exists c. split; [apply (in_sidebar sort_Slice map_range sort_ok range_ok); eauto|].
    apply categoryOf_pages in Hc as (_ & Hn & Hpages & _).
    split; [done|]. rewrite Hpages. apply list_elem_of_In, List.filter_In.
    split; [by apply list_elem_of_In|]. by apply bool_decide_eq_true_2.
  - split.
    + intros Hnil. rewrite Hnil in Hnames. simpl in Hnames.
      symmetry in Hnames. apply Permutation_nil_r in Hnames.
      apply Forall_forall. intros p Hp.
      destruct (decide (BlogPost.Parent p = [])) as [|Hne]; [done|].
      assert (Hin : BlogPost.Parent p ∈ discovered [] posts).
      { apply discovered_elem. split; [done|]. split; [by intros ?%elem_of_nil|]. eauto. }
      rewrite Hnames in Hin. by apply elem_of_nil in Hin.
    + intros Hall.
      destruct (discovered [] posts) as [|name names] eqn:Ed.
      * apply Permutation_nil_r in Hnames. by destruct (SideBar.Categories _).
      * assert (Hin : name ∈ discovered [] posts) by (rewrite Ed; by left).
        apply discovered_elem in Hin as (Hn & _ & p & Hp & Hpar).
        rewrite Forall_forall in Hall. specialize (Hall p Hp). congruence.
Qed.

(** X11: when the categories have pairwise distinct ranks the sidebar
    does not depend on the order in which the map is visited nor on the
    sort: any other [sort.Slice] and map order give the same sidebar. *)
Theorem sidebar_determined_by_distinct_ranks
    (sort_Slice' : (Category.t -> Category.t -> bool) -> list Category.t -> list Category.t)
    (map_range' : gmap gostring Category.t -> list (gostring * Category.t))
    (posts : list BlogPost.t) :
  sort_Slice_spec sort_Slice' ->
  map_range_spec map_range' ->
  NoDup (map Category.Order
           (SideBar.Categories (sidebarOf sort_Slice map_range posts))) ->
  sidebarOf sort_Slice' map_range' posts = sidebarOf sort_Slice map_range posts.
Proof.
  intros sort_ok' range_ok' Hranks. apply SideBar_eq. symmetry.
  apply (StronglySorted_unique_strong byOrder).
  - intros c d Hc Hd Hcd Hdc. unfold byOrder in *.
    apply (NoDup_map_inj _ _ _ _ Hranks Hc); [|lia].
    rewrite (sidebar_perm sort_Slice map_range sort_ok range_ok).
    by rewrite <- (sidebar_perm sort_Slice' map_range' sort_ok' range_ok').
  - apply (sidebar_sorted sort_Slice map_range sort_ok).
  - apply (sidebar_sorted sort_Slice' map_range' sort_ok').
  - rewrite (sidebar_perm sort_Slice map_range sort_ok range_ok).
    by rewrite (sidebar_perm sort_Slice' map_range' sort_ok' range_ok').
Qed.

End Categories.

Lemma category_pages_are_its_posts_witness :
  Category.Name (Category.mk "B" [page "B" 1] 1) <> [] /\
  Category.Pages (Category.mk "B" [page "B" 1] 1)
  = List.filter
      (fun p => bool_decide (BlogPost.Parent p = Category.Name (Category.mk "B" [page "B" 1] 1)))
      corpusABC /\
  Category.Pages (Category.mk "B" [page "B" 1] 1) <> [].
Proof.
  apply (category_pages_are_its_posts insertionSort map_to_list
           insertionSort_spec map_to_list_spec corpusABC).
  apply list_elem_of_lookup. exists 0%nat. by vm_compute.
Defined.

Lemma categories_partition_the_posts_witness :
  NoDup (map Category.Name
           (SideBar.Categories (sidebarOf insertionSort map_to_list corpusABC))) /\
  (forall p, p ∈ corpusABC -> BlogPost.Parent p <> [] ->
     exists c, c ∈ SideBar.Categories (sidebarOf insertionSort map_to_list corpusABC) /\
               Category.Name c = BlogPost.Parent p /\
               p ∈ Category.Pages c) /\
  (SideBar.Categories (sidebarOf insertionSort map_to_list corpusABC) = [] <->
   Forall (fun p => BlogPost.Parent p = []) corpusABC).
Proof.
  exact (categories_partition_the_posts insertionSort map_to_list
           insertionSort_spec map_to_list_spec corpusABC).
Defined.

Lemma sidebar_determined_by_distinct_ranks_witness :
  sidebarOf insertionSort (fun m => reverse (map_to_list m)) [page "A" 5; page "B" 1; page "A" 7]
  = sidebarOf insertionSort map_to_list [page "A" 5; page "B" 1; page "A" 7].
Proof.
  apply (sidebar_determined_by_distinct_ranks insertionSort map_to_list
           insertionSort_spec map_to_list_spec
           insertionSort (fun m => reverse (map_to_list m))).
  - exact insertionSort_spec.
  - intros m. apply reverse_Permutation.
  - apply (bool_decide_eq_true_1 _). by vm_compute.
Defined.

(** ** Anchors and links *)

Lemma lower_byte_ascii (c : ascii) :
  is_ascii c = true ->
  is_ascii (lower_byte c) = true /\ lower_byte (lower_byte c) = lower_byte c.
Proof.
  destruct c as [[] [] [] [] [] [] [] []]; vm_compute; intuition congruence.
Qed.

Lemma id_char_cases (c : ascii) :
  is_id_char c = true ->
  (is_lower c = true \/ is_digit c = true \/ c = HYPHEN) /\
  c <> DQUOTE /\ c <> SP /\ c <> "<"%char /\ c <> ">"%char /\ c <> "&"%char.
Proof.
  unfold is_id_char. intros H. split.
  - apply orb_true_iff in H as [H|H%byte_eqb_true]; [|tauto].
    apply orb_true_iff in H. tauto.
  - revert H. destruct c as [[] [] [] [] [] [] [] []]; vm_compute; intuition congruence.
Qed.

(** X12: an anchor made by [sanitizeHeaderForID] consists of lower-case
    letters, digits and hyphens only, whatever the heading and whatever
    [strings.ToLower] does to it; in particular it holds no quote, space,
    angle bracket or ampersand. *)
Theorem sanitize_alphabet (strings_ToLower : gostring -> gostring) (header : gostring) :
  Forall (fun c =>
            (is_lower c = true \/ is_digit c = true \/ c = HYPHEN) /\
            c <> DQUOTE /\ c <> SP /\ c <> "<"%char /\ c <> ">"%char /\ c <> "&"%char)
         (sanitizeHeaderForID strings_ToLower header).
Proof.
  apply Forall_forall. intros c Hin. apply id_char_cases.
  pose proof (sanitize_id_chars strings_ToLower header) as H.
  rewrite forallb_forall in H. by apply H, list_elem_of_In.
Qed.

(** X13: the links of a list of headings are the links of its parts, one
    after the other; no heading gives no link text at all. *)
Theorem links_of_appended_headings (strings_ToLower : gostring -> gostring)
    (headers1 headers2 : list gostring) :
  createSidebarLinks strings_ToLower (headers1 ++ headers2)
  = createSidebarLinks strings_ToLower headers1
    ++ createSidebarLinks strings_ToLower headers2 /\
  createSidebarLinks strings_ToLower [] = [].
Proof.
  split; [|done]. unfold createSidebarLinks. cbv zeta.
  rewrite !links_fold. cbn [app]. by rewrite map_app, concat_app.
Qed.

Section AsciiAnchors.

Variable strings_ToLower : gostring -> gostring.
Hypothesis ToLower_ok : ToLower_spec strings_ToLower.

Lemma sanitize_ascii (s : gostring) :
  forallb is_ascii s = true ->
  sanitizeHeaderForID strings_ToLower s
  = List.filter is_id_char
      (map (fun x => if byte_eqb x SP then HYPHEN else x) (map lower_byte s)).
Proof. intros Hs. by rewrite sanitize_unfold, ToLower_ok. Qed.

(** X14: on ASCII headings the anchor is computed byte by byte: the
    anchor of a concatenation is the concatenation of the anchors, and two
    headings that differ only in the case of their letters have the same
    anchor. *)
Theorem sanitize_ascii_bytewise (a b : gostring) :
  forallb is_ascii a = true ->
  forallb is_ascii b = true ->
  sanitizeHeaderForID strings_ToLower (a ++ b)
  = sanitizeHeaderForID strings_ToLower a ++ sanitizeHeaderForID strings_ToLower b /\
  (map lower_byte a = map lower_byte b ->
   sanitizeHeaderForID strings_ToLower a = sanitizeHeaderForID strings_ToLower b).
Proof.
  intros Ha Hb. split.
  - rewrite !sanitize_ascii; [|done|done|by rewrite forallb_app, Ha, Hb].
    by rewrite !map_app, List.filter_app.
  - intros Hab. rewrite !sanitize_ascii by done. by rewrite Hab.
Qed.

End AsciiAnchors.

Lemma sanitize_ascii_bytewise_witness :
  sanitizeHeaderForID asciiToLower ("API " ++ "Design")
  = sanitizeHeaderForID asciiToLower "API " ++ sanitizeHeaderForID asciiToLower "Design" /\
  (map lower_byte "API " = map lower_byte "Design" ->
   sanitizeHeaderForID asciiToLower "API " = sanitizeHeaderForID asciiToLower "Design").
Proof.
  apply (sanitize_ascii_bytewise asciiToLower asciiToLower_spec "API " "Design");
    reflexivity.
Defined.

(** ** The template helper [dict] *)

Lemma pairs_ind {A} (P : list A -> Prop) :
  P [] -> (forall x, P [x]) -> (forall x y l, P l -> P (x :: y :: l)) ->
  forall l, P l.
Proof.
  intros H0 H1 H2.
  assert (H : forall l, P l /\ forall x, P (x :: l)).
  { induction l as [|y l [IH1 IH2]]; [by split|]. split; [apply IH2|]. intros x. by apply H2. }
  intros l. apply H.
Qed.

Section DictProperties.

Context {T : Type}.

Lemma flatten_pairs_length (pairs : list (gostring * any T)) :
  length (flatten_pairs pairs) = (2 * length pairs)%nat.
Proof. unfold flatten_pairs. induction pairs as [|kv pairs IH]; simpl in *; lia. Qed.

Lemma dictLoop_pairs (pairs : list (gostring * any T)) (m : gmap gostring (any T)) :
  dictLoop (flatten_pairs pairs) m
  = (fold_left (fun m kv => <[fst kv := snd kv]> m) pairs m, None).
Proof.
  revert m. induction pairs as [|[k v] pairs IH]; intros m; [done|].
  unfold flatten_pairs in *. cbn. apply IH.
Qed.

Lemma fold_insert_list_to_map (pairs : list (gostring * any T)) :
  fold_left (fun m kv => <[fst kv := snd kv]> m) pairs ∅
  =@{gmap gostring (any T)} list_to_map (reverse pairs).
Proof.
  induction pairs as [|[k v] pairs IH] using rev_ind; [done|].
  rewrite fold_left_app, reverse_app. cbn. by rewrite IH.
Qed.

Lemma fold_insert_lookup (pairs : list (gostring * any T)) (key : gostring) :
  fold_left (fun m kv => <[fst kv := snd kv]> m) pairs (∅ : gmap gostring (any T)) !! key
  = snd <$> last (List.filter (fun kv => bool_decide (fst kv = key)) pairs).
Proof.
  induction pairs as [|[k v] pairs IH] using rev_ind; [done|].
  rewrite fold_left_app, List.filter_app. cbn [fold_left List.filter fst snd].
  case_bool_decide as Hk.
  - subst k. by rewrite lookup_insert_eq, last_snoc.
  - rewrite lookup_insert_ne by done. by rewrite app_nil_r.
Qed.

Lemma dictLoop_error (values : list (any T)) (m m' : gmap gostring (any T)) (err : error) :
  dictLoop values m = (m', Some err) ->
  m' = ∅ /\ err = errorString "dict keys must be strings".
Proof.
  revert m. induction values as [| x | x y l IH] using pairs_ind; intros m.
  - done.
  - destruct x; cbn; [done|]. by intros [= <- <-].
  - destruct x; cbn; [apply IH|]. by intros [= <- <-].
Qed.

Lemma dictLoop_ok (values : list (any T)) (m m' : gmap gostring (any T)) :
  (length values mod 2 = 0)%nat ->
  dictLoop values m = (m', None) ->
  exists pairs, values = flatten_pairs pairs.
Proof.
  revert m. induction values as [| x | x y l IH] using pairs_ind; intros m Hlen.
  - intros _. by exists [].
  - done.
  - destruct x as [k|v]; cbn [dictLoop]; [|done].
    intros (pairs & ->)%IH; [by exists ((k, y) :: pairs)|].
    cbn [length] in Hlen.
    replace (S (S (length l))) with (length l + 1 * 2)%nat in Hlen by lia.
    by rewrite Nat.Div0.mod_add in Hlen.
Qed.

Lemma flatten_pairs_even (pairs : list (gostring * any T)) :
  (length (flatten_pairs pairs) mod 2 =? 0)%nat = true.
Proof.
  rewrite flatten_pairs_length, Nat.mul_comm, Nat.Div0.mod_mul. done.
Qed.

Lemma dict_of_pairs_aux (pairs : list (gostring * any T)) :
  dict (flatten_pairs pairs) = (list_to_map (reverse pairs), None) /\
  forall key,
    fst (dict (flatten_pairs pairs)) !! key
    = snd <$> last (List.filter (fun kv => bool_decide (fst kv = key)) pairs).
Proof.
  unfold dict. rewrite flatten_pairs_even. cbn [negb].
  rewrite dictLoop_pairs. split.
  - by rewrite fold_insert_list_to_map.
  - intros key. cbn [fst]. apply fold_insert_lookup.
Qed.

(** X15: called with the arguments [k1, v1, ..., kn, vn], all keys being
    strings, [dict] succeeds and returns the map of these pairs in which,
    for a key given several times, the last value stands. *)
Theorem dict_of_pairs (pairs : list (gostring * any T)) :
  dict (flatten_pairs pairs) = (list_to_map (reverse pairs), None) /\
  forall key,
    fst (dict (flatten_pairs pairs)) !! key
    = snd <$> last (List.filter (fun kv => bool_decide (fst kv = key)) pairs).
Proof. apply dict_of_pairs_aux. Qed.

(** X16: [dict] succeeds exactly on argument lists of the form
    [k1, v1, ..., kn, vn] with string keys; it fails with "invalid dict
    call" exactly when the number of arguments is odd, whatever the
    arguments are, otherwise with "dict keys must be strings"; and with an
    error it returns no map. *)
Theorem dict_outcomes (values : list (any T)) :
  (snd (dict values) = None <-> exists pairs, values = flatten_pairs pairs) /\
  (snd (dict values) = Some (errorString "invalid dict call") <->
   (length values mod 2 = 1)%nat) /\
  (forall m err,
      dict values = (m, Some err) ->
      m = ∅ /\
      (err = errorString "invalid dict call" \/
       err = errorString "dict keys must be strings")).
Proof.
  unfold dict.
  pose proof (Nat.mod_upper_bound (length values) 2 ltac:(lia)) as Hmod.
  destruct (Nat.eqb_spec (length values mod 2) 0) as [Heven|Hodd]; cbn [negb].
  - split; [|split].
    + split.
      * destruct (dictLoop values ∅) as [m oe] eqn:E. simpl. intros ->.
        by eapply dictLoop_ok.
      * intros [pairs ->]. by rewrite dictLoop_pairs.
    + split; [|lia].
      destruct (dictLoop values ∅) as [m [e|]] eqn:E; [|done].
      apply dictLoop_error in E as [_ ->]. simpl. intros Hs. discriminate Hs.
    + intros m err (-> & ->)%dictLoop_error. split; [done|by right].
  - split; [|split].
    + split; [done|]. intros [pairs ->]. simpl.
      pose proof (flatten_pairs_even pairs) as H. apply Nat.eqb_eq in H. lia.
    + split; [lia|done].
    + intros m err [= <- <-]. split; [done|by left].
Qed.

(** X17: when the keys are pairwise distinct, the entries of the map
    [dict] returns are exactly the pairs it was called with. *)
Theorem dict_round_trip (pairs : list (gostring * any T)) :
  NoDup (map fst pairs) ->
  map_to_list (fst (dict (flatten_pairs pairs))) ≡ₚ pairs.
Proof.
  intros Hnd. rewrite (proj1 (dict_of_pairs_aux pairs)). cbn [fst].
  rewrite map_to_list_to_map.
  - apply reverse_Permutation.
  - rewrite fmap_reverse, reverse_Permutation. exact Hnd.
Qed.

End DictProperties.

Lemma dict_round_trip_witness :
  map_to_list
    (fst (dict (flatten_pairs
                  [("Title" : gostring, anyString "Home"); ("Depth" : gostring, anyOther 2%nat)])))
  ≡ₚ [("Title" : gostring, anyString "Home"); ("Depth" : gostring, anyOther 2%nat)].
Proof.
  apply dict_round_trip.
  apply (bool_decide_eq_true_1 _). by vm_compute.
Defined.

Lemma dict_outcomes_witness :
  (∅ : gmap gostring (any nat)) = ∅ /\
  (errorString "dict keys must be strings" = errorString "invalid dict call" \/
   errorString "dict keys must be strings" = errorString "dict keys must be strings").
Proof.
  apply (proj2 (proj2 (dict_outcomes [anyOther 1%nat; anyString "x"]))).
  reflexivity.
Defined.

Lemma load_succeeds_iff_witness :
  exists posts, loadMarkdownPosts (fun md => md) guidesDisk "./markdown" = (posts, None).
Proof.
  apply (proj2 (load_succeeds_iff (fun md => md) guidesDisk "./markdown")).
  exists [DirEntry.mk "p1.md" false; DirEntry.mk "p2.md" false].
  split; [reflexivity|].
  constructor; [|constructor; [|constructor]]; intros _.
  - exists ("Parent: Guides" ++ [LF] ++ "Order: 2" ++ [LF] ++ "---" ++ [LF]).
    split; [reflexivity|].
    by exists ("Parent: Guides" ++ [LF] ++ "Order: 2" ++ [LF]), [LF].
  - exists ("Parent: Guides" ++ [LF] ++ "Order: 5" ++ [LF] ++ "---" ++ [LF]).
    split; [reflexivity|].
    by exists ("Parent: Guides" ++ [LF] ++ "Order: 5" ++ [LF]), [LF].
Defined.
